(** * HelpFlow Triage Assistant: codec, playback scheduler, session teardown
      and triage request handling, embedded in Rocq.

    The development follows the three source files of the repository:
    - [types.ts]          (records and enumerations),
    - [geminiService.ts]  ([triageMessage], the base64 and PCM helpers),
    - [App.tsx]           (the live-session message handler, [stopLiveTriage]
                           and [handleTriage]).

    Platform functions the source calls ([btoa], [atob], typed-array
    conversions, [String.prototype.trim] ...) are collected in module [JS]. *)

From Stdlib.Strings Require Import Byte Ascii String.
From Stdlib Require Import List Bool Arith NArith ZArith QArith Qabs Lia.
Import ListNotations.

Set Implicit Arguments.

(* ================================================================== *)
(** ** Platform layer: the JavaScript builtins used by the sources     *)
(* ================================================================== *)

Module JS.

(** A JavaScript string is a sequence of UTF-16 code units. *)
Definition jsstring := list N.

(** String literals of the sources, written with Rocq string syntax. *)
Definition lit (s : string) : jsstring :=
  map N_of_ascii (list_ascii_of_string s).

(** Truthiness of a string: only the empty string is falsy. *)
Definition truthy (s : jsstring) : bool :=
  match s with [] => false | _ :: _ => true end.

(** [a || b] on strings. *)
Definition or_else (a b : jsstring) : jsstring :=
  if truthy a then a else b.

(** Code units removed by [trim]: WhiteSpace and LineTerminator. *)
Definition trim_units : list N :=
  [9; 10; 11; 12; 13; 32; 160; 5760;
   8192; 8193; 8194; 8195; 8196; 8197; 8198; 8199; 8200; 8201; 8202;
   8232; 8233; 8239; 8287; 12288; 65279]%N.

Definition is_trim_unit (c : N) : bool := existsb (N.eqb c) trim_units.

Fixpoint trimStart (s : jsstring) : jsstring :=
  match s with
  | c :: rest => if is_trim_unit c then trimStart rest else s
  | [] => []
  end.

Definition trimEnd (s : jsstring) : jsstring := rev (trimStart (rev s)).

Definition trim (s : jsstring) : jsstring := trimEnd (trimStart s).

(** [s.indexOf(c)] for a one-unit search string; [-1] when absent. *)
Fixpoint indexOf (s : jsstring) (c : N) : Z :=
  match s with
  | [] => (-1)%Z
  | x :: rest =>
      if N.eqb x c then 0%Z
      else let r := indexOf rest c in
           if (r =? -1)%Z then (-1)%Z else (r + 1)%Z
  end.

(** [s.lastIndexOf(c)] for a one-unit search string; [-1] when absent. *)
Fixpoint lastIndexOf (s : jsstring) (c : N) : Z :=
  match s with
  | [] => (-1)%Z
  | x :: rest =>
      let r := lastIndexOf rest c in
      if (r =? -1)%Z then (if N.eqb x c then 0%Z else (-1)%Z)
      else (r + 1)%Z
  end.

(** [s.slice(from, to)], negative indices counted from the end. *)
Definition slice (s : jsstring) (from to : Z) : jsstring :=
  let len := Z.of_nat (length s) in
  let k := if (from <? 0)%Z then Z.max (len + from) 0 else Z.min from len in
  let fin := if (to <? 0)%Z then Z.max (len + to) 0 else Z.min to len in
  firstn (Z.to_nat (fin - k)) (skipn (Z.to_nat k) s).

(** [parts.join(sep)]. *)
Fixpoint join (sep : jsstring) (parts : list jsstring) : jsstring :=
  match parts with
  | [] => []
  | [p] => p
  | p :: rest => p ++ sep ++ join sep rest
  end.

(** Exceptions raised by the sources or by the builtins they call. *)
Inductive exn : Type :=
| Error (message : jsstring)   (* [new Error(message)] *)
| SyntaxError                  (* [JSON.parse] *)
| TypeError                    (* property access on [null] *)
| RangeError                   (* typed-array view of a misaligned buffer *)
| InvalidCharacterError.       (* [atob] *)

(** *** Base64 ([btoa] / [atob])

    [btoa] is the forgiving-base64 encode of the HTML standard applied to
    a binary string, [atob] the forgiving-base64 decode. *)

Definition alphabet : jsstring :=
  lit "ABCDEFGHIJKLMNOPQRSTUVWXYZabcdefghijklmnopqrstuvwxyz0123456789+/"%string.

Definition pad_unit : N := 61%N.  (* '=' *)

(** The code unit that stands for a six-bit value. *)
Definition sextet_unit (v : N) : N := nth (N.to_nat v) alphabet 0%N.

(** The six-bit value a code unit stands for, if it is in the alphabet. *)
Fixpoint find_unit (c : N) (tbl : jsstring) (pos : N) : option N :=
  match tbl with
  | [] => None
  | x :: rest => if N.eqb x c then Some pos else find_unit c rest (N.succ pos)
  end.

Definition unit_sextet (c : N) : option N := find_unit c alphabet 0%N.

(** Three octets regrouped as four sextets, most significant bits first. *)
Definition sextets_of_octets (a b c : N) : list N :=
  [ a / 4 ; (a mod 4) * 16 + b / 16 ; (b mod 16) * 4 + c / 64 ; c mod 64 ]%N.

(** The byte congruent to [n] modulo 256. *)
Definition octet (n : N) : byte :=
  match Byte.of_N (n mod 256) with Some b => b | None => x00 end.

Fixpoint base64_encode (bs : list byte) : jsstring :=
  match bs with
  | a :: b :: c :: rest =>
      map sextet_unit (sextets_of_octets (Byte.to_N a) (Byte.to_N b) (Byte.to_N c))
      ++ base64_encode rest
  | [a; b] =>
      map sextet_unit
          (firstn 3 (sextets_of_octets (Byte.to_N a) (Byte.to_N b) 0))
      ++ [pad_unit]
  | [a] =>
      map sextet_unit (firstn 2 (sextets_of_octets (Byte.to_N a) 0 0))
      ++ [pad_unit; pad_unit]
  | [] => []
  end.

(** All code units of a binary string as bytes; [None] when one exceeds
    U+00FF. *)
Fixpoint binary_bytes (s : jsstring) : option (list byte) :=
  match s with
  | [] => Some []
  | c :: rest =>
      match Byte.of_N c, binary_bytes rest with
      | Some b, Some bs => Some (b :: bs)
      | _, _ => None
      end
  end.

(** [btoa(data)]; [None] is the InvalidCharacterError. *)
Definition btoa (data : jsstring) : option jsstring :=
  option_map base64_encode (binary_bytes data).

(** ASCII whitespace of the forgiving decode: TAB, LF, FF, CR, SPACE. *)
Definition is_ascii_whitespace (c : N) : bool :=
  existsb (N.eqb c) [9; 10; 12; 13; 32]%N.

Definition strip_whitespace (s : jsstring) : jsstring :=
  filter (fun c => negb (is_ascii_whitespace c)) s.

(** Step 2 of the decode: when the length is a multiple of four, one or
    two trailing ['='] are removed. *)
Definition strip_padding (s : jsstring) : jsstring :=
  if (length s mod 4 =? 0)%nat then
    match rev s with
    | p :: q :: r =>
        if N.eqb p pad_unit then
          if N.eqb q pad_unit then rev r else rev (q :: r)
        else s
    | [p] => if N.eqb p pad_unit then [] else s
    | [] => s
    end
  else s.

Fixpoint all_sextets (s : jsstring) : option (list N) :=
  match s with
  | [] => Some []
  | c :: rest =>
      match unit_sextet c, all_sextets rest with
      | Some v, Some vs => Some (v :: vs)
      | _, _ => None
      end
  end.

(** Steps 5-7: sextets are accumulated 24 bits at a time; a remainder of
    12 or 18 bits yields one or two bytes, the surplus bits are dropped. *)
Fixpoint octets_of_sextets (vs : list N) : list byte :=
  match vs with
  | s0 :: s1 :: s2 :: s3 :: rest =>
      [ octet (s0 * 4 + s1 / 16);
        octet ((s1 mod 16) * 16 + s2 / 4);
        octet ((s2 mod 4) * 64 + s3) ]%N ++ octets_of_sextets rest
  | [s0; s1; s2] =>
      [ octet (s0 * 4 + s1 / 16); octet ((s1 mod 16) * 16 + s2 / 4) ]%N
  | [s0; s1] => [ octet (s0 * 4 + s1 / 16)%N ]
  | _ => []
  end.

(** [atob(data)]; [None] is the InvalidCharacterError.  The result is a
    binary string, one code unit per decoded byte. *)
Definition atob (data : jsstring) : option jsstring :=
  let d := strip_padding (strip_whitespace data) in
  if (length d mod 4 =? 1)%nat then None
  else option_map (fun vs => map Byte.to_N (octets_of_sextets vs))
                  (all_sextets d).

(** *** Numbers and typed arrays *)

(** A JavaScript number: a finite value, as the rational it denotes
    (every binary floating-point value is one), or one of the three
    non-finite values.  The two zeros are not distinguished. *)
Inductive number : Type :=
| Finite (q : Q)
| NaN
| PosInfinity
| NegInfinity.

(** [x * 32768] and [x / 32768]: scaling by a power of two is exact on
    single-precision samples, and leaves the non-finite values alone. *)
Definition times_32768 (x : number) : number :=
  match x with
  | Finite q => Finite (q * 32768)
  | other => other
  end.

(** Truncation of a rational toward zero. *)
Definition truncate (q : Q) : Z := Z.quot (Qnum q) (Zpos (Qden q)).

(** ToInt16 of ECMAScript, the conversion applied when a number is
    stored into an [Int16Array]. *)
Definition ToInt16 (x : number) : Z :=
  match x with
  | Finite q =>
      let int16bit := (truncate q mod 65536)%Z in
      if (32768 <=? int16bit)%Z then (int16bit - 65536)%Z else int16bit
  | _ => 0%Z
  end.

(** ToUint8, the conversion applied when a number is stored into a
    [Uint8Array] (integers only are stored by the sources). *)
Definition ToUint8 (n : Z) : byte := octet (Z.to_N (n mod 256)).

(** [new Uint8Array(int16.buffer)]: the little-endian bytes of the
    elements of an [Int16Array]. *)
Definition int16_bytes (v : Z) : list byte :=
  [ToUint8 v; ToUint8 (v / 256)].

Definition Uint8Array_of_Int16Array (a : list Z) : list byte :=
  flat_map int16_bytes a.

Definition int16_of_bytes (lo hi : byte) : Z :=
  let u := (Z.of_N (Byte.to_N lo) + 256 * Z.of_N (Byte.to_N hi))%Z in
  if (32768 <=? u)%Z then (u - 65536)%Z else u.

(** [new Int16Array(data.buffer)]: a view of the bytes as little-endian
    16-bit elements; [None] is the RangeError raised when the byte length
    is odd. *)
Fixpoint Int16Array_of_bytes (bs : list byte) : option (list Z) :=
  match bs with
  | [] => Some []
  | lo :: hi :: rest =>
      option_map (cons (int16_of_bytes lo hi)) (Int16Array_of_bytes rest)
  | [_] => None
  end.

(** [Math.max] on finite clock values. *)
Definition Math_max (a b : Q) : Q := if Qle_bool a b then b else a.

(** A [Uint8Array]: a window of [byteLength] bytes, [byteOffset] bytes
    into an underlying [ArrayBuffer]. *)
Record Uint8Array : Type := {
  array_buffer : list byte;       (* [data.buffer], all of it *)
  byteOffset : nat;
  byteLength : nat
}.

(** The elements of the array: the bytes of its window. *)
Definition array_bytes (a : Uint8Array) : list byte :=
  firstn (byteLength a) (skipn (byteOffset a) (array_buffer a)).

(** [new Uint8Array(n)], filled: an array on a buffer of its own. *)
Definition Uint8Array_from (bytes : list byte) : Uint8Array :=
  {| array_buffer := bytes; byteOffset := 0;
     byteLength := List.length bytes |}.

(** [a.subarray(from, to)], for [from <= to] within the array. *)
Definition subarray (a : Uint8Array) (from to : nat) : Uint8Array :=
  {| array_buffer := array_buffer a; byteOffset := byteOffset a + from;
     byteLength := to - from |}.

End JS.

(* ================================================================== *)
(** ** types.ts                                                        *)
(* ================================================================== *)

Module Types.
Import JS.

Inductive AccountTier : Type := Free | Pro | Enterprise.

Inductive Priority : Type := High | Medium | Low.

Record GroundingSource : Type := {
  title : jsstring;
  uri : jsstring
}.

(** [use_search] is an optional property: [None] is [undefined]. *)
Record TriageInput : Type := {
  customer_message : jsstring;
  account_tier : AccountTier;
  recent_activity_summary : jsstring;
  use_search : option bool
}.

Record LiveTranscription : Type := {
  text : jsstring;
  isUser : bool
}.

(** [{ ...result, grounding_sources }]: the object obtained from the
    response text, with the [grounding_sources] property set (an own
    property of the parsed object with that name is overwritten). *)
Record TriageResult (JSON : Type) : Type := {
  parsed : JSON;
  grounding_sources : list GroundingSource
}.

(** [HistoryItem]: a triage result with its identifier, the time it was
    made (milliseconds) and the input it answers. *)
Record HistoryItem (JSON : Type) : Type := {
  triaged : TriageResult JSON;
  item_id : jsstring;
  timestamp : N;
  item_input : TriageInput
}.

End Types.

(* ================================================================== *)
(** ** geminiService.ts                                                *)
(* ================================================================== *)

Module GeminiService.
Import JS Types.

(** *** Live audio utilities *)

(** [decodeBase64]: [atob], then one byte per code unit of the binary
    string.  [None] when [atob] throws. *)
Definition decodeBase64 (base64 : jsstring) : option (list byte) :=
  option_map (map (fun c => ToUint8 (Z.of_N c))) (atob base64).

(** [encodeBase64]: one code unit per byte ([String.fromCharCode]), then
    [btoa]. *)
Definition encodeBase64 (bytes : list byte) : option jsstring :=
  btoa (map Byte.to_N bytes).

Record PcmBlob : Type := {
  data : jsstring;
  mimeType : jsstring
}.

(** [createPcmBlob]: every sample times 32768 stored into an
    [Int16Array], whose bytes are then base64-encoded. *)
Definition createPcmBlob (samples : list number) : option PcmBlob :=
  let int16 := map (fun x => ToInt16 (times_32768 x)) samples in
  option_map
    (fun d => {| data := d; mimeType := lit "audio/pcm;rate=16000" |})
    (encodeBase64 (Uint8Array_of_Int16Array int16)).

(** An [AudioBuffer]: [channels] holds [numberOfChannels] sequences of
    [frames] samples each. *)
Record AudioBuffer : Type := {
  numberOfChannels : nat;
  frames : nat;
  sampleRate : Q;
  channels : list (list number)
}.

(** [buffer.duration], in seconds. *)
Definition duration (b : AudioBuffer) : Q :=
  inject_Z (Z.of_nat (frames b)) / sampleRate b.

(** [dataInt16[k] / 32768.0]. *)
Definition int16_sample (v : Z) : number := Finite (v # 32768).

(** [decodeAudioData].  The audio context only allocates the buffer
    ([createBuffer], assumed to succeed) and is left out; the channel
    count is a positive integer (both callers pass 1).  A frame count
    that is not an integer leaves a partial last frame unwritten, hence
    the rounded-down division.  [None] is the RangeError of the
    [Int16Array] view on an odd number of bytes.  [bytes] are the bytes
    of [data.buffer], which for an array on a buffer of its own, such as
    [decodeBase64] returns, are the elements of the array;
    [decodeAudioData_in] below takes the array and the context. *)
Definition decodeAudioData (bytes : list byte) (rate : Q)
    (numChannels : positive) : option AudioBuffer :=
  match Int16Array_of_bytes bytes with
  | None => None
  | Some dataInt16 =>
      let n := Pos.to_nat numChannels in
      let frameCount := (List.length dataInt16 / n)%nat in
      Some {| numberOfChannels := n;
              frames := frameCount;
              sampleRate := rate;
              channels :=
                map (fun channel =>
                       map (fun i =>
                              int16_sample (nth (i * n + channel) dataInt16 0%Z))
                           (seq 0 frameCount))
                    (seq 0 n) |}
  end.

(** *** Structured triage *)

Record GenerateContentRequest : Type := {
  model : jsstring;
  contents : jsstring;
  systemInstruction : jsstring;
  temperature : Q;
  maxOutputTokens : N;
  responseMimeType : jsstring;
  googleSearch : bool          (* [tools: [{ googleSearch: {} }]] or absent *)
}.

(** [chunk.web], with its possibly missing title. *)
Record WebChunk : Type := {
  web_title : option jsstring;
  web_uri : jsstring
}.

Record GroundingChunk : Type := {
  web : option WebChunk
}.

(** What [triageMessage] reads from the response: [response.text]
    ([None] is [undefined]) and
    [response.candidates?.[0]?.groundingMetadata?.groundingChunks]
    ([None] when a link of the chain is missing). *)
Record GenerateContentResponse : Type := {
  response_text : option jsstring;
  groundingChunks : option (list GroundingChunk)
}.

Section Triage.

(** [JSON.parse] and [JSON.stringify] with the values they work on, the
    system prompt constant, and the backend call. *)
Variable JSON : Type.
Variable JSON_parse : jsstring -> option JSON.
Variable JSON_stringify : TriageInput -> jsstring.
Variable SYSTEM_INSTRUCTION : jsstring.
Variable generateContent : GenerateContentRequest -> GenerateContentResponse.

(** [{ ...input, recent_activity_summary: ...trim() || "no recent changes" }] *)
Definition processedInput (input : TriageInput) : TriageInput :=
  {| customer_message := customer_message input;
     account_tier := account_tier input;
     recent_activity_summary :=
       or_else (trim (recent_activity_summary input))
               (lit "no recent changes");
     use_search := use_search input |}.

Definition is_true (b : option bool) : bool :=
  match b with Some true => true | _ => false end.

Definition buildRequest (input : TriageInput) : GenerateContentRequest :=
  {| model := lit "gemini-3-flash-preview";
     contents := lit "Input: " ++ JSON_stringify (processedInput input);
     systemInstruction := SYSTEM_INSTRUCTION;
     temperature := 0;
     maxOutputTokens := 300;
     responseMimeType := lit "application/json";
     googleSearch := is_true (use_search input) |}.

Definition open_brace : N := 123%N.    (* '{' *)
Definition close_brace : N := 125%N.   (* '}' *)

(** The [try { JSON.parse(raw.trim()) } catch { ... }] block. *)
Definition parseResult (raw : jsstring) : exn + JSON :=
  match JSON_parse (trim raw) with
  | Some result => inr result
  | None =>
      let start := indexOf raw open_brace in
      let fin := lastIndexOf raw close_brace in
      if negb (start =? -1)%Z && negb (fin =? -1)%Z then
        match JSON_parse (slice raw start (fin + 1)) with
        | Some result => inr result
        | None => inl SyntaxError
        end
      else inl (Error (lit "Could not parse JSON response"))
  end.

(** The grounding chunks that carry a [web] part, as sources. *)
Definition sources_of_chunks (chunks : list GroundingChunk)
  : list GroundingSource :=
  flat_map
    (fun chunk =>
       match web chunk with
       | Some w =>
           [ {| title := match web_title w with
                         | Some t => or_else t (lit "Source")
                         | None => lit "Source"
                         end;
                uri := web_uri w |} ]
       | None => []
       end)
    chunks.

Definition extractGrounding (input : TriageInput)
    (response : GenerateContentResponse) : list GroundingSource :=
  if is_true (use_search input) then
    match groundingChunks response with
    | Some chunks => sources_of_chunks chunks
    | None => []
    end
  else [].

(** Everything [triageMessage] does once the response has arrived. *)
Definition handleResponse (input : TriageInput)
    (response : GenerateContentResponse) : exn + TriageResult JSON :=
  match response_text response with
  | None => inl (Error (lit "Empty response from AI engine"))
  | Some raw =>
      if negb (truthy raw) then
        inl (Error (lit "Empty response from AI engine"))
      else
        match parseResult raw with
        | inl e => inl e
        | inr result =>
            inr {| parsed := result;
                   grounding_sources := extractGrounding input response |}
        end
  end.

Definition triageMessage (input : TriageInput) : exn + TriageResult JSON :=
  handleResponse input (generateContent (buildRequest input)).

End Triage.

(** *** [decodeAudioData] with its array and its context *)

(** The two ways [decodeAudioData] throws. *)
Inductive decode_failure : Type :=
| ViewRangeError        (* [new Int16Array(data.buffer)], odd byte length *)
| BufferNotSupported.   (* [ctx.createBuffer] refuses the allocation *)

(** [decodeAudioData(data, ctx, sampleRate, numChannels)].  The
    [Int16Array] is a view of the whole [data.buffer], whatever window
    [data] is; [createBuffer_accepts channels frames rate] tells whether
    [ctx.createBuffer] accepts the allocation, and is asked after the
    view is made and before any sample is written.  The view and the
    samples are those of [decodeAudioData] above on the bytes of the
    buffer. *)
Definition decodeAudioData_in
    (createBuffer_accepts : nat -> nat -> Q -> bool)
    (data : Uint8Array) (rate : Q) (numChannels : positive)
  : decode_failure + AudioBuffer :=
  match decodeAudioData (array_buffer data) rate numChannels with
  | None => inl ViewRangeError
  | Some buffer =>
      if createBuffer_accepts (numberOfChannels buffer) (frames buffer) rate
      then inr buffer
      else inl BufferNotSupported
  end.

End GeminiService.

(* ================================================================== *)
(** ** App.tsx: the live session                                       *)
(* ================================================================== *)

Module App.
Import JS Types GeminiService.

(** Objects of the platform are known by their identity. *)
Definition MediaStreamTrack := nat.
Definition AudioContext := nat.
Definition Session := nat.

Record MediaStream : Type := {
  getTracks : list MediaStreamTrack
}.

(** [audioContextsRef.current = { input, output }]. *)
Record AudioContexts : Type := {
  ctx_input : AudioContext;
  ctx_output : AudioContext
}.

Record AudioBufferSourceNode : Type := {
  node : nat;
  buffer : AudioBuffer
}.

(** Calls that leave the component, in the order they are made. *)
Inductive Call : Type :=
| Track_stop (t : MediaStreamTrack)
| AudioContext_close (c : AudioContext)
| Session_close (s : Session)
| Source_start (s : AudioBufferSourceNode) (when : Q)
| Source_stop (s : AudioBufferSourceNode)
| TriageMessage (finalInput : TriageInput).

(** The state and refs of the component that the live session touches;
    [created] counts the source nodes made so far and gives each one its
    identity.  Display-only state (loading, error, result, history) is
    not part of the model. *)
Record Component : Type := {
  input : TriageInput;
  isLiveMode : bool;
  liveTranscription : list LiveTranscription;
  audioContextsRef : option AudioContexts;
  streamRef : option MediaStream;
  sessionRef : option Session;
  nextStartTimeRef : Q;
  activeSourcesRef : list AudioBufferSourceNode;   (* a [Set], insertion order *)
  created : nat
}.

(** *** A monad for handlers: state, emitted calls, exceptions.
    What a handler did before it threw stays done. *)

Inductive outcome (A : Type) : Type :=
| Returned (a : A)
| Thrown (e : exn).
Arguments Thrown {A} e.

Definition M (A : Type) : Type :=
  Component -> outcome A * Component * list Call.

Definition ret {A} (a : A) : M A := fun st => (Returned a, st, []).

Definition bind {A B} (c : M A) (k : A -> M B) : M B :=
  fun st =>
    match c st with
    | (Returned a, st1, calls1) =>
        match k a st1 with
        | (r, st2, calls2) => (r, st2, calls1 ++ calls2)
        end
    | (Thrown e, st1, calls1) => (Thrown e, st1, calls1)
    end.

Definition throw {A} (e : exn) : M A := fun st => (Thrown e, st, []).

Definition gets {A} (f : Component -> A) : M A :=
  fun st => (Returned (f st), st, []).

Definition modify (f : Component -> Component) : M unit :=
  fun st => (Returned tt, f st, []).

Definition call (c : Call) : M unit := fun st => (Returned tt, st, [c]).

Notation "x <- c ;; k" := (bind c (fun x => k))
  (at level 61, c at next level, right associativity).
Notation "c ;; k" := (bind c (fun _ => k))
  (at level 61, right associativity).

Fixpoint forEach {A} (l : list A) (f : A -> M unit) : M unit :=
  match l with
  | [] => ret tt
  | a :: rest => f a ;; forEach rest f
  end.

(** [ref.current.member] when [ref.current] may be [null]. *)
Definition deref {A} (r : option A) : M A :=
  match r with
  | Some a => ret a
  | None => throw TypeError
  end.

(** A builtin that throws [e] instead of returning. *)
Definition orThrow {A} (e : exn) (r : option A) : M A :=
  match r with
  | Some a => ret a
  | None => throw e
  end.

Definition isSome {A} (r : option A) : bool :=
  match r with Some _ => true | None => false end.

(** *** State updates *)

Definition setInput (i : TriageInput) (st : Component) : Component :=
  {| input := i; isLiveMode := isLiveMode st;
     liveTranscription := liveTranscription st;
     audioContextsRef := audioContextsRef st; streamRef := streamRef st;
     sessionRef := sessionRef st; nextStartTimeRef := nextStartTimeRef st;
     activeSourcesRef := activeSourcesRef st; created := created st |}.

Definition setIsLiveMode (b : bool) (st : Component) : Component :=
  {| input := input st; isLiveMode := b;
     liveTranscription := liveTranscription st;
     audioContextsRef := audioContextsRef st; streamRef := streamRef st;
     sessionRef := sessionRef st; nextStartTimeRef := nextStartTimeRef st;
     activeSourcesRef := activeSourcesRef st; created := created st |}.

Definition setLiveTranscription
    (f : list LiveTranscription -> list LiveTranscription)
    (st : Component) : Component :=
  {| input := input st; isLiveMode := isLiveMode st;
     liveTranscription := f (liveTranscription st);
     audioContextsRef := audioContextsRef st; streamRef := streamRef st;
     sessionRef := sessionRef st; nextStartTimeRef := nextStartTimeRef st;
     activeSourcesRef := activeSourcesRef st; created := created st |}.

Definition set_audioContextsRef (r : option AudioContexts)
    (st : Component) : Component :=
  {| input := input st; isLiveMode := isLiveMode st;
     liveTranscription := liveTranscription st;
     audioContextsRef := r; streamRef := streamRef st;
     sessionRef := sessionRef st; nextStartTimeRef := nextStartTimeRef st;
     activeSourcesRef := activeSourcesRef st; created := created st |}.

Definition set_streamRef (r : option MediaStream)
    (st : Component) : Component :=
  {| input := input st; isLiveMode := isLiveMode st;
     liveTranscription := liveTranscription st;
     audioContextsRef := audioContextsRef st; streamRef := r;
     sessionRef := sessionRef st; nextStartTimeRef := nextStartTimeRef st;
     activeSourcesRef := activeSourcesRef st; created := created st |}.

Definition set_sessionRef (r : option Session)
    (st : Component) : Component :=
  {| input := input st; isLiveMode := isLiveMode st;
     liveTranscription := liveTranscription st;
     audioContextsRef := audioContextsRef st; streamRef := streamRef st;
     sessionRef := r; nextStartTimeRef := nextStartTimeRef st;
     activeSourcesRef := activeSourcesRef st; created := created st |}.

Definition set_nextStartTimeRef (t : Q) (st : Component) : Component :=
  {| input := input st; isLiveMode := isLiveMode st;
     liveTranscription := liveTranscription st;
     audioContextsRef := audioContextsRef st; streamRef := streamRef st;
     sessionRef := sessionRef st; nextStartTimeRef := t;
     activeSourcesRef := activeSourcesRef st; created := created st |}.

Definition set_activeSourcesRef
    (f : list AudioBufferSourceNode -> list AudioBufferSourceNode)
    (st : Component) : Component :=
  {| input := input st; isLiveMode := isLiveMode st;
     liveTranscription := liveTranscription st;
     audioContextsRef := audioContextsRef st; streamRef := streamRef st;
     sessionRef := sessionRef st; nextStartTimeRef := nextStartTimeRef st;
     activeSourcesRef := f (activeSourcesRef st); created := created st |}.

(** [outCtx.createBufferSource()] followed by [source.buffer = buffer]. *)
Definition createBufferSource (b : AudioBuffer) : M AudioBufferSourceNode :=
  fun st =>
    (Returned {| node := created st; buffer := b |},
     {| input := input st; isLiveMode := isLiveMode st;
        liveTranscription := liveTranscription st;
        audioContextsRef := audioContextsRef st; streamRef := streamRef st;
        sessionRef := sessionRef st; nextStartTimeRef := nextStartTimeRef st;
        activeSourcesRef := activeSourcesRef st; created := S (created st) |},
     []).

(** [Set.prototype.add] and [delete], by node identity. *)
Definition same_node (a b : AudioBufferSourceNode) : bool :=
  Nat.eqb (node a) (node b).

Definition Set_add (s : AudioBufferSourceNode)
    (l : list AudioBufferSourceNode) : list AudioBufferSourceNode :=
  if existsb (same_node s) l then l else l ++ [s].

Definition Set_delete (s : AudioBufferSourceNode)
    (l : list AudioBufferSourceNode) : list AudioBufferSourceNode :=
  filter (fun x => negb (same_node s x)) l.

(** *** The message handler of the streaming session *)

(** The parts of a server message the handler reads: the text of
    [serverContent.inputTranscription] and [outputTranscription], the
    payload [serverContent.modelTurn.parts[0].inlineData.data], and
    [serverContent.interrupted]. *)
Record LiveServerMessage : Type := {
  inputTranscription : option jsstring;
  outputTranscription : option jsstring;
  inlineData : option jsstring;
  interrupted : bool
}.

(** The body of [if (base64Audio) { ... }] past the context check:
    [currentTime] is [outCtx.currentTime] as read by the handler. *)
Definition scheduleChunk (currentTime : Q) (base64Audio : jsstring) : M unit :=
  t <- gets nextStartTimeRef ;;
  modify (set_nextStartTimeRef (Math_max t currentTime)) ;;
  bytes <- orThrow InvalidCharacterError (decodeBase64 base64Audio) ;;
  buffer <- orThrow RangeError (decodeAudioData bytes 24000 1) ;;
  source <- createBufferSource buffer ;;
  start <- gets nextStartTimeRef ;;
  call (Source_start source start) ;;
  modify (set_nextStartTimeRef (start + duration buffer)) ;;
  modify (set_activeSourcesRef (Set_add source)).

(** The body of [if (msg.serverContent?.interrupted) { ... }]. *)
Definition interrupt : M unit :=
  active <- gets activeSourcesRef ;;
  forEach active (fun s => call (Source_stop s)) ;;
  modify (set_activeSourcesRef (fun _ => [])) ;;
  modify (set_nextStartTimeRef 0).

(** [source.onended]. *)
Definition onended (source : AudioBufferSourceNode) : M unit :=
  modify (set_activeSourcesRef (Set_delete source)).

Definition appendTranscription (t : option jsstring) (user : bool) : M unit :=
  match t with
  | Some txt =>
      modify (setLiveTranscription
                (fun prev => prev ++ [ {| text := txt; isUser := user |} ]))
  | None => ret tt
  end.

(** [onmessage].  The early [return] on a missing output context leaves
    the handler before the interruption check. *)
Definition onmessage (currentTime : Q) (msg : LiveServerMessage) : M unit :=
  let interruptedPart := if interrupted msg then interrupt else ret tt in
  appendTranscription (inputTranscription msg) true ;;
  appendTranscription (outputTranscription msg) false ;;
  match inlineData msg with
  | Some base64Audio =>
      if truthy base64Audio then
        ctxs <- gets audioContextsRef ;;
        match ctxs with
        | None => ret tt
        | Some _ => scheduleChunk currentTime base64Audio ;; interruptedPart
        end
      else interruptedPart
  | None => interruptedPart
  end.

(** *** Triage from the form and from the live session *)

(** [handleTriage(e, overrideInput)] up to the call of [triageMessage];
    what is done with the awaited result only concerns the display. *)
Definition handleTriage (overrideInput : option TriageInput) : M unit :=
  current <- gets input ;;
  let finalInput :=
    match overrideInput with Some o => o | None => current end in
  if negb (truthy (trim (customer_message finalInput))) then ret tt
  else call (TriageMessage finalInput).

Definition stopLiveTriage : M unit :=
  s <- gets streamRef ;;
  (if isSome s then
     stream <- deref s ;;
     forEach (getTracks stream) (fun t => call (Track_stop t)) ;;
     modify (set_streamRef None)
   else ret tt) ;;
  c <- gets audioContextsRef ;;
  (if isSome c then
     ctxs <- deref c ;;
     call (AudioContext_close (ctx_input ctxs)) ;;
     call (AudioContext_close (ctx_output ctxs)) ;;
     modify (set_audioContextsRef None)
   else ret tt) ;;
  h <- gets sessionRef ;;
  (if isSome h then
     session <- deref h ;;
     call (Session_close session) ;;
     modify (set_sessionRef None)
   else ret tt) ;;
  modify (setIsLiveMode false) ;;
  transcript <- gets liveTranscription ;;
  if (0 <? List.length transcript)%nat then
    let fullTranscript :=
      join (lit " ") (map text (filter isUser transcript)) in
    if truthy (trim fullTranscript) then
      current <- gets input ;;
      let liveInput :=
        {| customer_message := fullTranscript;
           account_tier := account_tier current;
           recent_activity_summary := recent_activity_summary current;
           use_search := use_search current |} in
      modify (setInput liveInput) ;;
      handleTriage (Some liveInput)
    else ret tt
  else ret tt.

(** *** Runs of the component *)

Inductive Event : Type :=
| Message (currentTime : Q) (msg : LiveServerMessage)
| Ended (source : AudioBufferSourceNode).

Definition dispatch (e : Event) : M unit :=
  match e with
  | Message t msg => onmessage t msg
  | Ended s => onended s
  end.

(** Events are handled one after the other; a handler that throws leaves
    its partial effects behind and the next event is handled as usual. *)
Fixpoint run (evs : list Event) (st : Component) : Component * list Call :=
  match evs with
  | [] => (st, [])
  | e :: rest =>
      match dispatch e st with
      | (_, st1, calls1) =>
          match run rest st1 with
          | (st2, calls2) => (st2, calls1 ++ calls2)
          end
      end
  end.

(** Start time and duration of every buffer started, in call order. *)
Fixpoint starts (calls : list Call) : list (Q * Q) :=
  match calls with
  | [] => []
  | Source_start s t :: rest => (t, duration (buffer s)) :: starts rest
  | _ :: rest => starts rest
  end.

(** *** Starting a session *)

(** [stopLiveTriage] as the render that defined it sees it: [input] and
    [liveTranscription] are the values that render closed over, the refs
    are read when the function runs.  ([stopLiveTriage] above is the case
    of the latest render, whose values are the current state.) *)
Definition stopLiveTriage_in (closed_input : TriageInput)
    (closed_log : list LiveTranscription) : M unit :=
  s <- gets streamRef ;;
  (if isSome s then
     stream <- deref s ;;
     forEach (getTracks stream) (fun t => call (Track_stop t)) ;;
     modify (set_streamRef None)
   else ret tt) ;;
  c <- gets audioContextsRef ;;
  (if isSome c then
     ctxs <- deref c ;;
     call (AudioContext_close (ctx_input ctxs)) ;;
     call (AudioContext_close (ctx_output ctxs)) ;;
     modify (set_audioContextsRef None)
   else ret tt) ;;
  h <- gets sessionRef ;;
  (if isSome h then
     session <- deref h ;;
     call (Session_close session) ;;
     modify (set_sessionRef None)
   else ret tt) ;;
  modify (setIsLiveMode false) ;;
  if (0 <? List.length closed_log)%nat then
    let fullTranscript :=
      join (lit " ") (map text (filter isUser closed_log)) in
    if truthy (trim fullTranscript) then
      let liveInput :=
        {| customer_message := fullTranscript;
           account_tier := account_tier closed_input;
           recent_activity_summary := recent_activity_summary closed_input;
           use_search := use_search closed_input |} in
      modify (setInput liveInput) ;;
      handleTriage (Some liveInput)
    else ret tt
  else ret tt.

(** [startLiveTriage].  [microphone] is what [getUserMedia] resolves to
    or throws, [connection] what the [connect] promise resolves to or
    throws; [inputCtx] and [outputCtx] are the two audio contexts, whose
    constructors are taken to succeed.  The function is taken to run
    without another handler in between.  Its [catch] block runs the
    [stopLiveTriage] of the render that started, which closed over the
    input and the transcript of that render. *)
Definition startLiveTriage (microphone : exn + MediaStream)
    (inputCtx outputCtx : AudioContext) (connection : exn + Session)
  : M unit :=
  closed_input <- gets input ;;
  closed_log <- gets liveTranscription ;;
  modify (setIsLiveMode true) ;;
  modify (setLiveTranscription (fun _ => [])) ;;
  match microphone with
  | inl _ => stopLiveTriage_in closed_input closed_log
  | inr stream =>
      modify (set_streamRef (Some stream)) ;;
      modify (set_audioContextsRef
                (Some {| ctx_input := inputCtx; ctx_output := outputCtx |})) ;;
      match connection with
      | inl _ => stopLiveTriage_in closed_input closed_log
      | inr session => modify (set_sessionRef (Some session))
      end
  end.

(** *** What [handleTriage] shows *)

(** The display state [handleTriage] writes. *)
Record Display (JSON : Type) : Type := {
  loading : bool;
  error : option jsstring;
  result : option (HistoryItem JSON);
  history : list (HistoryItem JSON)        (* newest first *)
}.

(** [err.message]: the message of an [Error], or what the platform gives
    a builtin exception. *)
Definition err_message (platform : exn -> jsstring) (e : exn) : jsstring :=
  match e with
  | Error m => m
  | other => platform other
  end.

(** [handleTriage] from the guard to the [finally] block, once the
    promise of [triageMessage] has settled with [settled]: [fresh_id] is
    the identifier drawn for the item and [now] the time it is made.
    The intermediate display ([loading] on, [error] cleared) is not
    kept. *)
Definition handleTriage_settled (JSON : Type)
    (platform : exn -> jsstring)
    (overrideInput : option TriageInput) (current : TriageInput)
    (settled : exn + TriageResult JSON) (fresh_id : jsstring) (now : N)
    (d : Display JSON) : Display JSON :=
  let finalInput :=
    match overrideInput with Some o => o | None => current end in
  if negb (truthy (trim (customer_message finalInput))) then d
  else
    match settled with
    | inr triaged_result =>
        let newHistoryItem :=
          {| triaged := triaged_result; item_id := fresh_id;
             timestamp := now; item_input := finalInput |} in
        {| loading := false; error := None;
           result := Some newHistoryItem;
           history := newHistoryItem :: history d |}
    | inl err =>
        {| loading := false;
           error :=
             Some (or_else (err_message platform err)
                     (lit "An unexpected error occurred during triage."));
           result := result d;
           history := history d |}
    end.

End App.

(* ================================================================== *)
(** ** Proof-side definitions                                          *)
(* ================================================================== *)

Import JS Types GeminiService App.

(** The sextets [base64_encode] emits, without the alphabet lookup and
    without the padding. *)
Fixpoint encode_sextets (bs : list byte) : list N :=
  match bs with
  | a :: b :: c :: rest =>
      sextets_of_octets (Byte.to_N a) (Byte.to_N b) (Byte.to_N c)
      ++ encode_sextets rest
  | [a; b] => firstn 3 (sextets_of_octets (Byte.to_N a) (Byte.to_N b) 0)
  | [a] => firstn 2 (sextets_of_octets (Byte.to_N a) 0 0)
  | [] => []
  end.

(** The padding [base64_encode] emits. *)
Fixpoint encode_padding (bs : list byte) : jsstring :=
  match bs with
  | _ :: _ :: _ :: rest => encode_padding rest
  | [_; _] => [pad_unit]
  | [_] => [pad_unit; pad_unit]
  | [] => []
  end.

(** [wireBytesToSamples(samplesToWireBytes(s), 1)]: what the receiving
    side reads back from what the sending side produced, the blob's text
    going through [decodeBase64] and [decodeAudioData] with one channel
    (at the playback rate, which the samples do not depend on). *)
Definition round_trip (s : list number) : option (list (list number)) :=
  match createPcmBlob s with
  | None => None
  | Some blob =>
      match decodeBase64 (data blob) with
      | None => None
      | Some bytes => option_map channels (decodeAudioData bytes 24000 1)
      end
  end.


(** A sample of the range [-1, 1): the nominal range without positive
    full scale. *)
Definition below_full_scale (x : number) : Prop :=
  match x with
  | Finite q => -1 <= q /\ q < 1
  | _ => False
  end.


(** Equality of strings, unit by unit. *)
Fixpoint jseqb (a b : jsstring) : bool :=
  match a, b with
  | [], [] => true
  | x :: a', y :: b' => N.eqb x y && jseqb a' b'
  | _, _ => false
  end.

(** The two failures of [triageMessage] that report unparseable text:
    its own [Error] and the [SyntaxError] of the second [JSON.parse]. *)
Definition parse_error (JSON : Type) (r : exn + TriageResult JSON) : Prop :=
  r = inl (Error (lit "Could not parse JSON response")) \/ r = inl SyntaxError.

(** The double quote, which string literals cannot hold. *)
Definition quote : jsstring := [34%N].

(** [noise{"summary":"x"}trailing] and the object inside it. *)
Definition embedded_object : jsstring :=
  lit "{" ++ quote ++ lit "summary" ++ quote ++ lit ":"
  ++ quote ++ lit "x" ++ quote ++ lit "}".

Definition noisy_text : jsstring :=
  lit "noise" ++ embedded_object ++ lit "trailing".

(** A stand-in for [JSON.parse] that accepts [embedded_object] only. *)
Definition parse_embedded (s : jsstring) : option jsstring :=
  if jseqb s embedded_object then Some s else None.

(** The input of the end-to-end scenario. *)
Definition csv_crash : TriageInput :=
  {| customer_message := lit "App crashes on CSV upload";
     account_tier := Pro;
     recent_activity_summary := [];
     use_search := Some false |}.

(** The range of an [Int16Array] element. *)
Definition int16_range (v : Z) : Prop := (-32768 <= v <= 32767)%Z.

(** A backend that answers every request with the noisy text. *)
Definition noisy_backend (_ : GenerateContentRequest)
  : GenerateContentResponse :=
  {| response_text := Some noisy_text; groundingChunks := None |}.

(** A backend that answers with an empty text. *)
Definition silent_backend (_ : GenerateContentRequest)
  : GenerateContentResponse :=
  {| response_text := Some []; groundingChunks := None |}.

(** A backend that attaches one web citation to its answer. *)
Definition citing_backend (_ : GenerateContentRequest)
  : GenerateContentResponse :=
  {| response_text := Some embedded_object;
     groundingChunks :=
       Some [ {| web := Some {| web_title := None;
                                web_uri := lit "https://example.org" |} |} ] |}.

(** A backend whose answer has no text at all. *)
Definition mute_backend (_ : GenerateContentRequest)
  : GenerateContentResponse :=
  {| response_text := None; groundingChunks := None |}.

(** A chunk with a [web] part. *)
Definition has_web (chunk : GroundingChunk) : bool :=
  match web chunk with Some _ => true | None => false end.

(** *** Submissions *)

(** One call of [handleTriage]: what it was given and how the request
    settled. *)
Record Submission (JSON : Type) : Type := {
  sub_override : option TriageInput;
  sub_current : TriageInput;
  sub_settled : exn + TriageResult JSON;
  sub_id : jsstring;
  sub_time : N
}.

Definition sub_final (JSON : Type) (s : Submission JSON) : TriageInput :=
  match sub_override s with Some o => o | None => sub_current s end.

(** A submission that is sent and answered. *)
Definition answered (JSON : Type) (s : Submission JSON) : bool :=
  truthy (trim (customer_message (sub_final s)))
  && match sub_settled s with inr _ => true | inl _ => false end.

Definition submit (JSON : Type) (platform : exn -> jsstring)
    (d : Display JSON) (s : Submission JSON) : Display JSON :=
  handleTriage_settled platform (sub_override s) (sub_current s)
    (sub_settled s) (sub_id s) (sub_time s) d.

(** The error shown, if any, has something to read. *)
Definition error_readable (JSON : Type) (d : Display JSON) : Prop :=
  match error d with
  | Some m => m <> []
  | None => True
  end.

(** *** Observing a handler *)


Definition outcome_of (A : Type) (m : M A) (st : Component) : outcome A :=
  fst (fst (m st)).

Definition state_after (A : Type) (m : M A) (st : Component) : Component :=
  snd (fst (m st)).

Definition calls_of (A : Type) (m : M A) (st : Component) : list Call :=
  snd (m st).

(** *** Teardown *)

(** The release calls the held resources call for, in the order
    microphone tracks, input context, output context, session. *)
Definition releases (st : Component) : list Call :=
  match streamRef st with
  | Some stream => map Track_stop (getTracks stream)
  | None => []
  end
  ++ match audioContextsRef st with
     | Some ctxs => [AudioContext_close (ctx_input ctxs);
                     AudioContext_close (ctx_output ctxs)]
     | None => []
     end
  ++ match sessionRef st with
     | Some session => [Session_close session]
     | None => []
     end.

Definition is_release (c : Call) : bool :=
  match c with
  | Track_stop _ | AudioContext_close _ | Session_close _ => true
  | _ => false
  end.

(** The texts of the user-attributed entries, space-joined, in log
    order. *)
Definition user_message (log : list LiveTranscription) : jsstring :=
  join (lit " ") (map text (filter isUser log)).

(** The current input with the customer message replaced. *)
Definition with_message (i : TriageInput) (m : jsstring) : TriageInput :=
  {| customer_message := m;
     account_tier := account_tier i;
     recent_activity_summary := recent_activity_summary i;
     use_search := use_search i |}.

(** The auto-triage at the end of [stopLiveTriage]. *)
Definition auto_triage (st : Component) : list Call :=
  if truthy (trim (user_message (liveTranscription st)))
  then [TriageMessage (with_message (input st)
                         (user_message (liveTranscription st)))]
  else [].

(** The triage requests among the calls. *)
Fixpoint triage_requests (calls : list Call) : list TriageInput :=
  match calls with
  | [] => []
  | TriageMessage i :: rest => i :: triage_requests rest
  | _ :: rest => triage_requests rest
  end.

(** *** Handling messages *)

(** The transcript entry of a fragment, if there is one. *)
Definition entries (o : option jsstring) (user : bool)
  : list LiveTranscription :=
  match o with
  | Some txt => [ {| text := txt; isUser := user |} ]
  | None => []
  end.

(** What a message adds to the transcript: the user's fragment, then the
    agent's. *)
Definition heard (msg : LiveServerMessage) : list LiveTranscription :=
  entries (inputTranscription msg) true
  ++ entries (outputTranscription msg) false.

Fixpoint heard_in (evs : list Event) : list LiveTranscription :=
  match evs with
  | [] => []
  | Message _ msg :: rest => heard msg ++ heard_in rest
  | Ended _ :: rest => heard_in rest
  end.

(** The state once the transcriptions of a message are appended. *)
Definition transcribe (msg : LiveServerMessage) (st : Component) : Component :=
  setLiveTranscription
    (fun prev => prev ++ entries (outputTranscription msg) false)
    (setLiveTranscription
       (fun prev => prev ++ entries (inputTranscription msg) true) st).

(** The state once a decoded buffer is scheduled at device time [t]. *)
Definition schedule (t : Q) (b : AudioBuffer) (st : Component) : Component :=
  let start := Math_max (nextStartTimeRef st) t in
  {| input := input st; isLiveMode := isLiveMode st;
     liveTranscription := liveTranscription st;
     audioContextsRef := audioContextsRef st; streamRef := streamRef st;
     sessionRef := sessionRef st;
     nextStartTimeRef := start + duration b;
     activeSourcesRef :=
       Set_add {| node := created st; buffer := b |} (activeSourcesRef st);
     created := S (created st) |}.

(** The state once playback is flushed. *)
Definition flush (st : Component) : Component :=
  set_nextStartTimeRef 0 (set_activeSourcesRef (fun _ => []) st).

(** What the interruption check at the end of the handler does. *)
Definition interruptedPart (msg : LiveServerMessage) (st : Component)
  : outcome unit * Component * list Call :=
  if interrupted msg
  then (Returned tt, flush st, map Source_stop (activeSourcesRef st))
  else (Returned tt, st, []).

(** The calls that start or stop a source. *)
Definition is_playback (c : Call) : bool :=
  match c with
  | Source_start _ _ | Source_stop _ => true
  | _ => false
  end.

(** Every stop is for a source of [started] or one started earlier in
    the calls. *)
Fixpoint stops_after_starts (started : list AudioBufferSourceNode)
    (calls : list Call) : Prop :=
  match calls with
  | [] => True
  | Source_start s _ :: rest => stops_after_starts (s :: started) rest
  | Source_stop s :: rest => In s started /\ stops_after_starts started rest
  | _ :: rest => stops_after_starts started rest
  end.

(** The sources started so far, once the calls are made. *)
Fixpoint begun_into (started : list AudioBufferSourceNode)
    (calls : list Call) : list AudioBufferSourceNode :=
  match calls with
  | [] => started
  | Source_start s _ :: rest => begun_into (s :: started) rest
  | _ :: rest => begun_into started rest
  end.

(** A triage request with something to read in its customer message. *)
Definition request_not_blank (c : Call) : Prop :=
  match c with
  | TriageMessage i => trim (customer_message i) <> []
  | _ => True
  end.

(** The auto-triage of a render that closed over [i] and [log]. *)
Definition auto_triage_of (i : TriageInput) (log : list LiveTranscription)
  : list Call :=
  if truthy (trim (user_message log))
  then [TriageMessage (with_message i (user_message log))]
  else [].

(** The state [stopLiveTriage] leaves, seen from that render. *)
Definition stopped (i : TriageInput) (log : list LiveTranscription)
    (st : Component) : Component :=
  {| input := if truthy (trim (user_message log))
              then with_message i (user_message log) else input st;
     isLiveMode := false;
     liveTranscription := liveTranscription st;
     audioContextsRef := None; streamRef := None; sessionRef := None;
     nextStartTimeRef := nextStartTimeRef st;
     activeSourcesRef := activeSourcesRef st;
     created := created st |}.

(** What the refs hold when [startLiveTriage] reaches its [catch]
    block. *)
Definition held_at_failure (microphone : exn + MediaStream)
    (inputCtx outputCtx : AudioContext) (st : Component) : Component :=
  match microphone with
  | inl _ => st
  | inr stream =>
      set_audioContextsRef
        (Some {| ctx_input := inputCtx; ctx_output := outputCtx |})
        (set_streamRef (Some stream) st)
  end.

(** *** Playback timeline *)

(** The playback buffer a payload decodes to, if it does. *)
Definition decoded (payload : jsstring) : option AudioBuffer :=
  match decodeBase64 payload with
  | Some bytes => decodeAudioData bytes 24000 1
  | None => None
  end.








(** A server message that only carries audio. *)
Definition audio_message (payload : jsstring) : LiveServerMessage :=
  {| inputTranscription := None; outputTranscription := None;
     inlineData := Some payload; interrupted := false |}.

(** A component in a live session, with nothing scheduled yet. *)
Definition live_component (log : list LiveTranscription) : Component :=
  {| input := csv_crash; isLiveMode := true; liveTranscription := log;
     audioContextsRef := Some {| ctx_input := 1%nat; ctx_output := 2%nat |};
     streamRef := Some {| getTracks := [7%nat] |};
     sessionRef := Some 3%nat;
     nextStartTimeRef := 0; activeSourcesRef := []; created := 0%nat |}.


(** A component with one buffer playing and the cursor at nine
    seconds. *)
Definition playing_component : Component :=
  {| input := csv_crash; isLiveMode := true; liveTranscription := [];
     audioContextsRef := Some {| ctx_input := 1%nat; ctx_output := 2%nat |};
     streamRef := Some {| getTracks := [7%nat] |};
     sessionRef := Some 3%nat;
     nextStartTimeRef := 9;
     activeSourcesRef :=
       [ {| node := 0%nat;
            buffer := {| numberOfChannels := 1; frames := 3;
                         sampleRate := 24000;
                         channels := [[Finite 0; Finite 0; Finite 0]] |} |} ];
     created := 1%nat |}.

(** The transcript of the voice scenario. *)
Definition login_log : list LiveTranscription :=
  [ {| text := lit "I can't log in"; isUser := true |};
    {| text := lit "I see, let me help"; isUser := false |};
    {| text := lit "It just times out"; isUser := true |} ].

(** *** Revisited statements *)



(** What [createPcmBlob] stores for a sample: a sixteen-bit value, zero
    for a non-finite sample, otherwise congruent to the truncated product
    modulo 2^16; the truncated product itself on [-1, 1), the product
    less 2^16 on [1, 3), hence -32768 at 1.0. *)
Definition stored_as (x : number) (v : Z) : Prop :=
  int16_range v
  /\ match x with
     | Finite q =>
         (v mod 65536 = truncate (q * 32768) mod 65536)%Z
         /\ (-1 <= q -> q < 1 -> v = truncate (q * 32768))
         /\ (1 <= q -> q < 3 -> v = (truncate (q * 32768) - 65536)%Z)
         /\ (q == 1 -> v = (-32768)%Z)
     | _ => v = 0%Z
     end.

(** A backend that answers with the text of the request it is sent. *)
Definition echo_backend (req : GenerateContentRequest)
  : GenerateContentResponse :=
  {| response_text := Some (contents req); groundingChunks := None |}.

(** A context that refuses empty buffers and accepts the others. *)
Definition nonempty_only (channels frameCount : nat) (rate : Q) : bool :=
  (0 <? frameCount)%nat.

(** Linear arithmetic with division and remainder by constants. *)
Ltac divmod := zify; Z.to_euclidean_division_equations; lia.

(* ================================================================== *)
(** ** Base64                                                          *)
(* ================================================================== *)

Section Base64.

Lemma list_ind3 (A : Type) (P : list A -> Prop) :
  P [] ->
  (forall a, P [a]) ->
  (forall a b, P [a; b]) ->
  (forall a b c rest, P rest -> P (a :: b :: c :: rest)) ->
  forall l, P l.
Proof.
  intros H0 H1 H2 H3.
  fix IH 1.
  intros [|a [|b [|c rest]]];
    [apply H0 | apply H1 | apply H2 | apply H3; apply IH].
Qed.

Lemma to_N_lt_256 (b : byte) : (Byte.to_N b < 256)%N.
Proof. pose proof (Byte.to_N_bounded b). lia. Qed.

Lemma octet_to_N (b : byte) : octet (Byte.to_N b) = b.
Proof.
  unfold octet.
  rewrite N.mod_small by apply to_N_lt_256.
  now rewrite Byte.of_to_N.
Qed.

Lemma to_N_octet (n : N) : (n < 256)%N -> Byte.to_N (octet n) = n.
Proof.
  intros Hn. unfold octet. rewrite N.mod_small by assumption.
  destruct (Byte.of_N n) as [b|] eqn:E.
  - now apply Byte.to_of_N.
  - apply Byte.of_N_None_iff in E. lia.
Qed.

Lemma ToUint8_to_N (b : byte) : ToUint8 (Z.of_N (Byte.to_N b)) = b.
Proof.
  unfold ToUint8.
  pose proof (to_N_lt_256 b).
  rewrite Z.mod_small by lia.
  rewrite N2Z.id. apply octet_to_N.
Qed.

(** Every six-bit value is recovered from its alphabet unit. *)
Lemma unit_sextet_unit (v : N) :
  (v < 64)%N -> unit_sextet (sextet_unit v) = Some v.
Proof.
  intros Hv.
  assert (Hall : forallb
            (fun n => match unit_sextet (sextet_unit (N.of_nat n)) with
                      | Some w => N.eqb w (N.of_nat n)
                      | None => false
                      end) (seq 0 64) = true) by (vm_compute; reflexivity).
  rewrite forallb_forall in Hall.
  specialize (Hall (N.to_nat v)).
  rewrite N2Nat.id in Hall.
  assert (Hin : In (N.to_nat v) (seq 0 64)) by (apply in_seq; lia).
  specialize (Hall Hin).
  destruct (unit_sextet (sextet_unit v)) as [w|]; [|discriminate].
  apply N.eqb_eq in Hall. now subst.
Qed.

Lemma sextet_unit_not_pad (v : N) : (v < 64)%N -> sextet_unit v <> pad_unit.
Proof.
  intros Hv E. pose proof (unit_sextet_unit Hv) as H.
  rewrite E in H. vm_compute in H. discriminate.
Qed.

Lemma sextet_unit_not_whitespace (v : N) :
  (v < 64)%N -> is_ascii_whitespace (sextet_unit v) = false.
Proof.
  intros Hv. pose proof (unit_sextet_unit Hv) as H.
  destruct (is_ascii_whitespace (sextet_unit v)) eqn:E; [|reflexivity].
  unfold is_ascii_whitespace in E. apply existsb_exists in E.
  destruct E as [w [Hin Hw]]. apply N.eqb_eq in Hw. rewrite Hw in H.
  simpl in Hin.
  repeat (destruct Hin as [<-|Hin]; [vm_compute in H; discriminate|]).
  destruct Hin.
Qed.

Lemma sextets_lt_64 (a b c : N) :
  (a < 256)%N -> (b < 256)%N -> (c < 256)%N ->
  Forall (fun v => (v < 64)%N) (sextets_of_octets a b c).
Proof.
  intros Ha Hb Hc. unfold sextets_of_octets.
  repeat constructor; divmod.
Qed.

Lemma octet_eq (n : N) (b : byte) : n = Byte.to_N b -> octet n = b.
Proof. intros ->. apply octet_to_N. Qed.

(** One full group: four sextets give back the three bytes. *)
Lemma octets_of_group (a b c : byte) (vs : list N) :
  octets_of_sextets
    (sextets_of_octets (Byte.to_N a) (Byte.to_N b) (Byte.to_N c) ++ vs)
  = a :: b :: c :: octets_of_sextets vs.
Proof.
  pose proof (to_N_lt_256 a). pose proof (to_N_lt_256 b).
  pose proof (to_N_lt_256 c).
  unfold sextets_of_octets. cbn [app octets_of_sextets].
  f_equal; [|f_equal; [|f_equal]]; apply octet_eq; divmod.
Qed.

Lemma octets_of_encode_sextets (bs : list byte) :
  octets_of_sextets (encode_sextets bs) = bs.
Proof.
  induction bs as [|a|a b|a b c rest IH] using list_ind3.
  - reflexivity.
  - pose proof (to_N_lt_256 a). cbn. f_equal. apply octet_eq. divmod.
  - pose proof (to_N_lt_256 a). pose proof (to_N_lt_256 b). cbn.
    f_equal; [|f_equal]; apply octet_eq; divmod.
  - cbn [encode_sextets]. rewrite octets_of_group. now rewrite IH.
Qed.

Lemma encode_sextets_lt_64 (bs : list byte) :
  Forall (fun v => (v < 64)%N) (encode_sextets bs).
Proof.
  induction bs as [|a|a b|a b c rest IH] using list_ind3.
  - constructor.
  - pose proof (to_N_lt_256 a). cbn. repeat constructor; divmod.
  - pose proof (to_N_lt_256 a). pose proof (to_N_lt_256 b). cbn.
    repeat constructor; divmod.
  - cbn [encode_sextets]. apply Forall_app. split; [|exact IH].
    apply sextets_lt_64; apply to_N_lt_256.
Qed.

(** The encoder's output is the alphabet image of the sextets, followed
    by the padding. *)
Lemma base64_encode_split (bs : list byte) :
  base64_encode bs = map sextet_unit (encode_sextets bs) ++ encode_padding bs.
Proof.
  induction bs as [|a|a b|a b c rest IH] using list_ind3;
    try reflexivity.
  cbn [base64_encode encode_sextets encode_padding].
  rewrite IH, map_app, app_assoc. reflexivity.
Qed.

(** Sextets and padding together fill whole groups of four. *)
Lemma encode_length (bs : list byte) :
  exists k,
    (List.length (encode_sextets bs) + List.length (encode_padding bs)
     = 4 * k)%nat
    /\ (List.length (encode_padding bs) <= 2)%nat
    /\ (encode_padding bs = [] \/ encode_padding bs = [pad_unit]
        \/ encode_padding bs = [pad_unit; pad_unit]).
Proof.
  induction bs as [|a|a b|a b c rest IH] using list_ind3.
  - exists 0%nat. cbn. auto.
  - exists 1%nat. cbn. auto.
  - exists 1%nat. cbn. auto.
  - destruct IH as [k [Hk [Hp Hc]]]. exists (S k).
    cbn [encode_sextets encode_padding]. rewrite length_app.
    unfold sextets_of_octets. cbn [List.length]. repeat split; auto; lia.
Qed.

Lemma filter_all (A : Type) (f : A -> bool) (l : list A) :
  Forall (fun x => f x = true) l -> filter f l = l.
Proof.
  induction 1 as [|x l Hx _ IH]; cbn; [reflexivity|].
  now rewrite Hx, IH.
Qed.

Lemma encoded_units_not_whitespace (bs : list byte) :
  Forall (fun c => negb (is_ascii_whitespace c) = true)
         (map sextet_unit (encode_sextets bs) ++ encode_padding bs).
Proof.
  apply Forall_app. split.
  - apply Forall_map.
    eapply Forall_impl; [|apply encode_sextets_lt_64].
    intros v Hv. cbn beta. now rewrite sextet_unit_not_whitespace.
  - destruct (encode_length bs) as [_ [_ [_ [-> | [-> | ->]]]]];
      repeat constructor.
Qed.

Lemma strip_padding_unpadded (s : jsstring) :
  Forall (fun c => c <> pad_unit) s -> strip_padding s = s.
Proof.
  intros Hs. unfold strip_padding.
  destruct (List.length s mod 4 =? 0)%nat; [|reflexivity].
  destruct (rev s) as [|p [|q r]] eqn:E; [reflexivity| |].
  - assert (Hp : p <> pad_unit).
    { rewrite Forall_forall in Hs. apply Hs. apply in_rev. rewrite E.
      now left. }
    apply N.eqb_neq in Hp. now rewrite Hp.
  - assert (Hp : p <> pad_unit).
    { rewrite Forall_forall in Hs. apply Hs. apply in_rev. rewrite E.
      now left. }
    apply N.eqb_neq in Hp. now rewrite Hp.
Qed.

Lemma strip_padding_encoded (bs : list byte) :
  strip_padding (map sextet_unit (encode_sextets bs) ++ encode_padding bs)
  = map sextet_unit (encode_sextets bs).
Proof.
  set (body := map sextet_unit (encode_sextets bs)).
  assert (Hbody : Forall (fun c => c <> pad_unit) body).
  { apply Forall_map. eapply Forall_impl; [|apply encode_sextets_lt_64].
    intros v Hv. now apply sextet_unit_not_pad. }
  destruct (encode_length bs) as [k [Hk [_ Hpad]]].
  assert (Hlen : List.length body = List.length (encode_sextets bs))
    by apply length_map.
  destruct Hpad as [E | [E | E]]; rewrite E in *.
  - rewrite app_nil_r. now apply strip_padding_unpadded.
  - unfold strip_padding. rewrite length_app, Hlen, Hk.
    replace (4 * k)%nat with (k * 4)%nat by lia.
    rewrite Nat.Div0.mod_mul. cbn [Nat.eqb].
    rewrite rev_app_distr. cbn [rev app].
    destruct (rev body) as [|q r] eqn:Er.
    + apply (f_equal (@List.length N)) in Er. rewrite length_rev in Er.
      cbn in Er, Hk. lia.
    + rewrite N.eqb_refl.
      assert (Hq : q <> pad_unit).
      { rewrite Forall_forall in Hbody. apply Hbody. apply in_rev.
        rewrite Er. now left. }
      apply N.eqb_neq in Hq. rewrite Hq.
      change (rev (q :: r) = body).
      rewrite <- Er. apply rev_involutive.
  - unfold strip_padding. rewrite length_app, Hlen, Hk.
    replace (4 * k)%nat with (k * 4)%nat by lia.
    rewrite Nat.Div0.mod_mul. cbn [Nat.eqb].
    rewrite rev_app_distr. cbn [rev app].
    rewrite !N.eqb_refl. apply rev_involutive.
Qed.

Lemma all_sextets_units (vs : list N) :
  Forall (fun v => (v < 64)%N) vs ->
  all_sextets (map sextet_unit vs) = Some vs.
Proof.
  induction 1 as [|v vs Hv _ IH]; cbn [map all_sextets]; [reflexivity|].
  now rewrite (unit_sextet_unit Hv), IH.
Qed.

Lemma encoded_length_not_1 (bs : list byte) :
  (List.length (map sextet_unit (encode_sextets bs)) mod 4 =? 1)%nat = false.
Proof.
  rewrite length_map.
  destruct (encode_length bs) as [k [Hk [Hp _]]].
  apply Nat.eqb_neq. intros E.
  pose proof (Nat.div_mod_eq (List.length (encode_sextets bs)) 4) as D.
  lia.
Qed.

(** [atob] undoes the encoder on every byte sequence. *)
Lemma atob_base64_encode (bs : list byte) :
  atob (base64_encode bs) = Some (map Byte.to_N bs).
Proof.
  unfold atob. rewrite base64_encode_split.
  unfold strip_whitespace.
  rewrite (filter_all _ (encoded_units_not_whitespace bs)).
  rewrite strip_padding_encoded, encoded_length_not_1.
  rewrite (all_sextets_units (encode_sextets_lt_64 bs)). cbn.
  now rewrite octets_of_encode_sextets.
Qed.

Lemma binary_bytes_to_N (bs : list byte) :
  binary_bytes (map Byte.to_N bs) = Some bs.
Proof.
  induction bs as [|b bs IH]; cbn; [reflexivity|].
  now rewrite Byte.of_to_N, IH.
Qed.

(** [encodeBase64] never throws. *)
Lemma encodeBase64_total (bs : list byte) :
  encodeBase64 bs = Some (base64_encode bs).
Proof. unfold encodeBase64, btoa. now rewrite binary_bytes_to_N. Qed.

Lemma decodeBase64_base64_encode (bs : list byte) :
  decodeBase64 (base64_encode bs) = Some bs.
Proof.
  unfold decodeBase64. rewrite atob_base64_encode. cbn. f_equal.
  rewrite map_map. rewrite <- (map_id bs) at 2.
  apply map_ext. intros b. apply ToUint8_to_N.
Qed.

End Base64.

(* ================================================================== *)
(** ** PCM: sixteen-bit little-endian samples                          *)
(* ================================================================== *)

Section Pcm.

Lemma ToInt16_range (x : number) : int16_range (ToInt16 x).
Proof.
  unfold int16_range. destruct x as [q| | |]; cbn [ToInt16]; try lia.
  destruct (32768 <=? truncate q mod 65536)%Z eqn:E;
    [apply Z.leb_le in E | apply Z.leb_gt in E]; divmod.
Qed.

(** ToInt16 agrees with truncation modulo 2^16. *)
Lemma ToInt16_wraps (q : Q) :
  (ToInt16 (Finite q) mod 65536 = truncate q mod 65536)%Z.
Proof.
  cbn [ToInt16].
  destruct (32768 <=? truncate q mod 65536)%Z; divmod.
Qed.

Lemma ToInt16_in_range (q : Q) :
  int16_range (truncate q) -> ToInt16 (Finite q) = truncate q.
Proof.
  unfold int16_range. intros H. cbn [ToInt16].
  destruct (32768 <=? truncate q mod 65536)%Z eqn:E;
    [apply Z.leb_le in E | apply Z.leb_gt in E]; divmod.
Qed.

(** Division truncating toward zero: the remainder is smaller than the
    divisor and has the sign of the dividend. *)
Lemma quot_spec (a d : Z) :
  (0 < d)%Z ->
  exists r, (a = d * (a ÷ d) + r)%Z /\ (- d < r < d)%Z
            /\ (0 <= a -> 0 <= r)%Z /\ (a <= 0 -> r <= 0)%Z.
Proof.
  intros Hd. exists (Z.rem a d). repeat split.
  - apply Z.quot_rem'.
  - pose proof (Z.rem_bound_abs a d ltac:(lia)). lia.
  - pose proof (Z.rem_bound_abs a d ltac:(lia)). lia.
  - intros Ha. apply Z.rem_nonneg; lia.
  - intros Ha. apply Z.rem_nonpos; lia.
Qed.

Lemma truncate_scaled_range (q : Q) :
  -1 <= q -> q < 1 -> int16_range (truncate (q * 32768)).
Proof.
  destruct q as [n d]. unfold Qle, Qlt, int16_range, truncate. cbn.
  intros Hlo Hhi.
  rewrite Pos.mul_1_r.
  destruct (quot_spec (n * 32768) (d := Z.pos d) ltac:(lia))
    as [r [D [Hr [Hpos Hneg]]]].
  set (t := (n * 32768 ÷ Z.pos d)%Z) in *.
  destruct (Z.le_gt_cases 0 n) as [Hn | Hn].
  - specialize (Hpos ltac:(lia)). nia.
  - specialize (Hneg ltac:(lia)). nia.
Qed.


Lemma to_N_ToUint8 (z : Z) :
  Z.of_N (Byte.to_N (ToUint8 z)) = (z mod 256)%Z.
Proof.
  unfold ToUint8.
  assert (H : (0 <= z mod 256 < 256)%Z) by (apply Z.mod_pos_bound; lia).
  rewrite to_N_octet by lia. lia.
Qed.

Lemma int16_of_int16_bytes (v : Z) :
  int16_range v -> int16_of_bytes (ToUint8 v) (ToUint8 (v / 256)) = v.
Proof.
  unfold int16_range, int16_of_bytes. intros Hv.
  rewrite !to_N_ToUint8.
  destruct (32768 <=? v mod 256 + 256 * ((v / 256) mod 256))%Z eqn:E;
    [apply Z.leb_le in E | apply Z.leb_gt in E]; divmod.
Qed.

(** Viewing the bytes of an [Int16Array] as an [Int16Array] again. *)
Lemma Int16Array_of_Uint8Array (a : list Z) :
  Forall int16_range a ->
  Int16Array_of_bytes (Uint8Array_of_Int16Array a) = Some a.
Proof.
  induction 1 as [|v a Hv _ IH]; [reflexivity|].
  unfold Uint8Array_of_Int16Array in *.
  cbn [flat_map int16_bytes app Int16Array_of_bytes].
  now rewrite IH, int16_of_int16_bytes.
Qed.

Lemma map_nth_all (A B : Type) (f : A -> B) (d : A) (l : list A) :
  map (fun i => f (nth (i * 1 + 0) l d)) (seq 0 (List.length l)) = map f l.
Proof.
  assert (G : forall k pre,
             List.length pre = k ->
             map (fun i => f (nth (i * 1 + 0) (pre ++ l) d))
                 (seq k (List.length l)) = map f l).
  { induction l as [|x l IH]; intros k pre Hk; [reflexivity|].
    cbn [List.length seq map]. f_equal.
    - replace (k * 1 + 0)%nat with (List.length pre + 0)%nat by lia.
      rewrite app_nth2_plus. reflexivity.
    - specialize (IH (S k) (pre ++ [x])).
      rewrite <- app_assoc in IH. apply IH.
      rewrite length_app. cbn. lia. }
  apply (G 0%nat []). reflexivity.
Qed.

(** With one channel the buffer holds every sixteen-bit element, each
    divided by 32768. *)
Lemma decodeAudioData_mono (bytes : list byte) (rate : Q) (a : list Z) :
  Int16Array_of_bytes bytes = Some a ->
  decodeAudioData bytes rate 1
  = Some {| numberOfChannels := 1; frames := List.length a;
            sampleRate := rate; channels := [map int16_sample a] |}.
Proof.
  intros E. unfold decodeAudioData. rewrite E.
  change (Pos.to_nat 1) with 1%nat.
  rewrite Nat.div_1_r. cbn [seq map].
  now rewrite map_nth_all.
Qed.

(** What comes back from the wire is the stored sixteen-bit value of
    every sample, divided by 32768. *)
Lemma round_trip_eq (s : list number) :
  round_trip s
  = Some [map (fun x => int16_sample (ToInt16 (times_32768 x))) s].
Proof.
  unfold round_trip, createPcmBlob.
  rewrite encodeBase64_total. cbn [option_map data].
  rewrite decodeBase64_base64_encode.
  rewrite (@decodeAudioData_mono _ _
             (map (fun x => ToInt16 (times_32768 x)) s)).
  - cbn. now rewrite map_map.
  - apply Int16Array_of_Uint8Array. apply Forall_map.
    apply Forall_forall. intros x _. apply ToInt16_range.
Qed.

End Pcm.

(* ================================================================== *)
(** ** The codec: checks and claims                                    *)
(* ================================================================== *)

Section CodecClaims.

(** Known vectors of the encoding. *)
Example encodeBase64_Man :
  encodeBase64 ["M"; "a"; "n"]%byte = Some (lit "TWFu").
Proof. reflexivity. Qed.

Example encodeBase64_Ma :
  encodeBase64 ["M"; "a"]%byte = Some (lit "TWE=").
Proof. reflexivity. Qed.

Example encodeBase64_M :
  encodeBase64 ["M"]%byte = Some (lit "TQ==").
Proof. reflexivity. Qed.

Example decodeBase64_spaced :
  decodeBase64 (lit "TW Fu TQ") = Some ["M"; "a"; "n"; "M"]%byte.
Proof. reflexivity. Qed.

Example decodeBase64_rejects :
  decodeBase64 (lit "TWFu*") = None /\ decodeBase64 (lit "T") = None.
Proof. split; reflexivity. Qed.

(** Half scale is stored as 16384, little-endian. *)
Example createPcmBlob_half :
  option_map data (createPcmBlob [Finite (1 # 2)]) = Some (lit "AEA=").
Proof. reflexivity. Qed.

(** C9 -- Base64 round trip: for every byte sequence [b], [encodeBase64]
    yields a transport text and [decodeBase64] of that text is exactly
    [b]. *)
Theorem decodeBase64_encodeBase64 (b : list byte) :
  exists t, encodeBase64 b = Some t /\ decodeBase64 t = Some b.
Proof.
  exists (base64_encode b). split.
  - apply encodeBase64_total.
  - apply decodeBase64_base64_encode.
Qed.




End CodecClaims.

(* ================================================================== *)
(** ** Strings: searching and slicing                                  *)
(* ================================================================== *)

Section Strings.

Lemma indexOf_lower (s : jsstring) (c : N) : (-1 <= indexOf s c)%Z.
Proof.
  induction s as [|x s IH]; cbn [indexOf]; [lia|].
  destruct (N.eqb x c); [lia|].
  destruct (indexOf s c =? -1)%Z; lia.
Qed.

Lemma lastIndexOf_lower (s : jsstring) (c : N) : (-1 <= lastIndexOf s c)%Z.
Proof.
  induction s as [|x s IH]; cbn [lastIndexOf]; [lia|].
  destruct (lastIndexOf s c =? -1)%Z; [destruct (N.eqb x c)|]; lia.
Qed.

Lemma indexOf_absent (s : jsstring) (c : N) :
  indexOf s c = (-1)%Z <-> ~ In c s.
Proof.
  induction s as [|x s IH]; cbn [indexOf In]; [tauto|].
  pose proof (indexOf_lower s c) as Hlow.
  destruct (N.eqb_spec x c) as [E|E].
  - split; [discriminate|]. intros H. exfalso. apply H. now left.
  - destruct (Z.eqb_spec (indexOf s c) (-1)) as [E1|E1].
    + split; [|reflexivity]. intros _ [H|H]; [contradiction|].
      now apply IH in H.
    + split; [lia|]. intros H. exfalso. apply E1, IH. tauto.
Qed.

Lemma lastIndexOf_absent (s : jsstring) (c : N) :
  lastIndexOf s c = (-1)%Z <-> ~ In c s.
Proof.
  induction s as [|x s IH]; cbn [lastIndexOf In]; [tauto|].
  pose proof (lastIndexOf_lower s c) as Hlow.
  destruct (Z.eqb_spec (lastIndexOf s c) (-1)) as [E1|E1].
  - destruct (N.eqb_spec x c) as [E|E].
    + split; [discriminate|]. intros H. exfalso. apply H. now left.
    + split; [|reflexivity]. intros _ [H|H]; [contradiction|].
      now apply IH in H.
  - split; [lia|]. intros H. exfalso. apply E1, IH. tauto.
Qed.

(** The first occurrence is where the unit-free prefix ends. *)
Lemma indexOf_first (pre rest : jsstring) (c : N) :
  ~ In c pre -> indexOf (pre ++ c :: rest) c = Z.of_nat (List.length pre).
Proof.
  induction pre as [|x pre IH]; intros Hpre.
  - cbn. now rewrite N.eqb_refl.
  - cbn [app indexOf List.length].
    destruct (N.eqb_spec x c) as [E|E].
    + exfalso. apply Hpre. now left.
    + rewrite IH by (intros H; apply Hpre; now right).
      destruct (Z.eqb_spec (Z.of_nat (List.length pre)) (-1)); lia.
Qed.

(** The last occurrence is where the unit-free suffix begins. *)
Lemma lastIndexOf_last (pre post : jsstring) (c : N) :
  ~ In c post ->
  lastIndexOf (pre ++ c :: post) c = Z.of_nat (List.length pre).
Proof.
  intros Hpost. induction pre as [|x pre IH].
  - cbn [app lastIndexOf List.length].
    apply lastIndexOf_absent in Hpost. rewrite Hpost.
    cbn. now rewrite N.eqb_refl.
  - cbn [app lastIndexOf List.length]. rewrite IH.
    destruct (Z.eqb_spec (Z.of_nat (List.length pre)) (-1)); lia.
Qed.

Lemma slice_middle (pre mid post : jsstring) :
  slice (pre ++ mid ++ post) (Z.of_nat (List.length pre))
        (Z.of_nat (List.length pre + List.length mid))
  = mid.
Proof.
  unfold slice. rewrite !length_app.
  destruct (Z.ltb_spec (Z.of_nat (List.length pre)) 0) as [H|_]; [lia|].
  destruct (Z.ltb_spec (Z.of_nat (List.length pre + List.length mid)) 0)
    as [H|_]; [lia|].
  rewrite !Z.min_l by lia.
  rewrite Nat2Z.id.
  replace (Z.to_nat (Z.of_nat (List.length pre + List.length mid)
                     - Z.of_nat (List.length pre)))
    with (List.length mid) by lia.
  rewrite skipn_app, skipn_all, Nat.sub_diag. cbn [app skipn].
  rewrite firstn_app, firstn_all, Nat.sub_diag. cbn [firstn].
  apply app_nil_r.
Qed.

(** The recovery slice of a text that wraps an object in noise is the
    object. *)
Lemma slice_braces (noise obj trailing : jsstring) :
  ~ In open_brace noise -> ~ In close_brace trailing ->
  let raw := noise ++ (open_brace :: obj ++ [close_brace]) ++ trailing in
  slice raw (indexOf raw open_brace) (lastIndexOf raw close_brace + 1)
  = open_brace :: obj ++ [close_brace].
Proof.
  intros Hn Ht raw. subst raw.
  assert (E1 : indexOf (noise ++ (open_brace :: obj ++ [close_brace])
                              ++ trailing) open_brace
               = Z.of_nat (List.length noise)).
  { cbn [app]. now apply indexOf_first. }
  assert (E2 : lastIndexOf (noise ++ (open_brace :: obj ++ [close_brace])
                                  ++ trailing) close_brace
               = Z.of_nat (List.length noise + S (List.length obj))).
  { replace (noise ++ (open_brace :: obj ++ [close_brace]) ++ trailing)
      with ((noise ++ open_brace :: obj) ++ close_brace :: trailing).
    - rewrite lastIndexOf_last by assumption.
      rewrite length_app. reflexivity.
    - cbn [app]. repeat rewrite <- app_assoc. cbn [app]. reflexivity. }
  rewrite E1, E2.
  replace (Z.of_nat (List.length noise + S (List.length obj)) + 1)%Z
    with (Z.of_nat (List.length noise
                    + List.length (open_brace :: obj ++ [close_brace]))).
  - apply slice_middle.
  - cbn [List.length]. rewrite length_app. cbn [List.length]. lia.
Qed.

End Strings.

(* ================================================================== *)
(** ** Structured triage: request, recovery, grounding                 *)
(* ================================================================== *)

Section TriageClaims.

Variable JSON : Type.
Variable JSON_parse : jsstring -> option JSON.
Variable JSON_stringify : TriageInput -> jsstring.
Variable SYSTEM_INSTRUCTION : jsstring.
Variable generateContent : GenerateContentRequest -> GenerateContentResponse.

Local Abbreviation request :=
  (buildRequest JSON_stringify SYSTEM_INSTRUCTION).
Local Abbreviation triage :=
  (triageMessage JSON_parse JSON_stringify SYSTEM_INSTRUCTION generateContent).

Lemma handleResponse_nonempty (input : TriageInput)
    (response : GenerateContentResponse) (raw : jsstring) :
  response_text response = Some raw -> raw <> [] ->
  handleResponse JSON_parse input response
  = match parseResult JSON_parse raw with
    | inl e => inl e
    | inr v => inr {| parsed := v;
                      grounding_sources := extractGrounding input response |}
    end.
Proof.
  intros Ht Hraw. unfold handleResponse. rewrite Ht.
  destruct raw as [|c raw]; [congruence|]. reflexivity.
Qed.

(** C6, amended -- when the response text is not empty and does not
    parse as it is, [triageMessage] makes one recovery attempt, on the
    slice from the first opening to the last closing brace: an object
    wrapped in noise is extracted and parsed, and a text that lacks an
    opening or a closing brace fails with the error "Could not parse JSON
    response". *)
Theorem triageMessage_recovery (input : TriageInput) (raw : jsstring) :
  response_text (generateContent (request input)) = Some raw ->
  raw <> [] ->
  JSON_parse (trim raw) = None ->
  let response := generateContent (request input) in
  (In open_brace raw -> In close_brace raw ->
   triage input
   = match JSON_parse (slice raw (indexOf raw open_brace)
                             (lastIndexOf raw close_brace + 1)) with
     | Some v => inr {| parsed := v;
                        grounding_sources := extractGrounding input response |}
     | None => inl SyntaxError
     end)
  /\ (forall noise obj trailing v,
        raw = noise ++ (open_brace :: obj ++ [close_brace]) ++ trailing ->
        ~ In open_brace noise -> ~ In close_brace trailing ->
        JSON_parse (open_brace :: obj ++ [close_brace]) = Some v ->
        triage input
        = inr {| parsed := v;
                 grounding_sources := extractGrounding input response |})
  /\ (~ In open_brace raw \/ ~ In close_brace raw ->
      triage input = inl (Error (lit "Could not parse JSON response"))).
Proof.
  intros Ht Hraw Hdirect response.
  assert (Hboth : In open_brace raw -> In close_brace raw ->
     triage input
     = match JSON_parse (slice raw (indexOf raw open_brace)
                               (lastIndexOf raw close_brace + 1)) with
       | Some v => inr {| parsed := v;
                          grounding_sources := extractGrounding input response |}
       | None => inl SyntaxError
       end).
  { intros Ho Hc. unfold triageMessage.
    rewrite (handleResponse_nonempty _ _ Ht Hraw).
    unfold parseResult. rewrite Hdirect.
    destruct (Z.eqb_spec (indexOf raw open_brace) (-1)) as [E|_].
    { apply indexOf_absent in E. contradiction. }
    destruct (Z.eqb_spec (lastIndexOf raw close_brace) (-1)) as [E|_].
    { apply lastIndexOf_absent in E. contradiction. }
    cbn [negb andb].
    destruct (JSON_parse (slice raw (indexOf raw open_brace)
                                (lastIndexOf raw close_brace + 1)));
      reflexivity. }
  split; [exact Hboth|split].
  - intros noise obj trailing v Hshape Hn Htr Hobj.
    rewrite Hboth.
    + rewrite Hshape.
      rewrite (@slice_braces noise obj trailing Hn Htr). now rewrite Hobj.
    + rewrite Hshape. apply in_or_app. right. apply in_or_app. left.
      now left.
    + rewrite Hshape. apply in_or_app. right. apply in_or_app. left.
      right. apply in_or_app. right. now left.
  - intros Hmiss. unfold triageMessage.
    rewrite (handleResponse_nonempty _ _ Ht Hraw).
    unfold parseResult. rewrite Hdirect.
    destruct Hmiss as [H|H].
    + apply indexOf_absent in H. rewrite H. reflexivity.
    + apply lastIndexOf_absent in H. rewrite H.
      now rewrite andb_false_r.
Qed.

(** C8 -- a result of [triageMessage] has grounding sources only if the
    input asked for search and the response carried grounding chunks with
    a web part; when the flag is not set the list is empty. *)
Theorem grounding_requires_search (input : TriageInput)
    (result : TriageResult JSON) :
  triage input = inr result ->
  (use_search input <> Some true -> grounding_sources result = [])
  /\ (grounding_sources result <> [] ->
      use_search input = Some true
      /\ exists chunks,
           groundingChunks (generateContent (request input)) = Some chunks
           /\ grounding_sources result = sources_of_chunks chunks
           /\ exists chunk w, In chunk chunks /\ web chunk = Some w).
Proof.
  unfold triageMessage.
  set (response := generateContent (request input)).
  unfold handleResponse.
  destruct (response_text response) as [raw|]; [|discriminate].
  destruct (negb (truthy raw)); [discriminate|].
  destruct (parseResult JSON_parse raw) as [e|v]; [discriminate|].
  intros E. injection E as <-. cbn [grounding_sources].
  unfold extractGrounding. split.
  - intros Hflag.
    destruct (use_search input) as [[|]|]; cbn; congruence.
  - destruct (use_search input) as [[|]|]; cbn [is_true];
      try congruence.
    destruct (groundingChunks response) as [chunks|]; [|congruence].
    intros Hne. split; [reflexivity|]. exists chunks.
    split; [reflexivity|]. split; [reflexivity|].
    unfold sources_of_chunks in Hne.
    induction chunks as [|c chunks IH]; [now contradiction Hne|].
    destruct (web c) as [w|] eqn:Ew.
    + exists c, w. split; [now left|exact Ew].
    + cbn [flat_map] in Hne. rewrite Ew in Hne. cbn [app] in Hne.
      destruct (IH Hne) as [c' [w' [Hin Hw]]].
      exists c', w'. split; [now right|exact Hw].
Qed.

End TriageClaims.

Section TriageScenarios.

Lemma triageMessage_recovery_witness :
  triageMessage parse_embedded (fun _ => []) [] noisy_backend csv_crash
  = inr {| parsed := embedded_object; grounding_sources := [] |}.
Proof.
  assert (Hne : noisy_text <> []) by discriminate.
  destruct (@triageMessage_recovery jsstring parse_embedded (fun _ => []) []
              noisy_backend csv_crash noisy_text eq_refl Hne eq_refl)
    as [_ [H _]].
  apply (H (lit "noise")
           (quote ++ lit "summary" ++ quote ++ lit ":" ++ quote ++ lit "x"
            ++ quote)
           (lit "trailing")).
  - reflexivity.
  - vm_compute. intuition discriminate.
  - vm_compute. intuition discriminate.
  - reflexivity.
Defined.

(** C6, as stated, fails on the empty text: it holds no brace and does
    not parse, yet [triageMessage] reports an empty response, which is
    neither of the two parse failures. *)
Lemma empty_text_is_not_a_parse_error :
  let r := triageMessage (fun _ : jsstring => @None unit) (fun _ => []) []
                         silent_backend csv_crash in
  ~ In open_brace [] /\ ~ In close_brace []
  /\ r = inl (Error (lit "Empty response from AI engine"))
  /\ ~ parse_error r.
Proof.
  cbv zeta. split; [|split; [|split]].
  - intros [].
  - intros [].
  - reflexivity.
  - intros [H|H]; vm_compute in H; discriminate.
Qed.

Example no_brace_text_fails :
  triageMessage (fun _ : jsstring => @None unit) (fun _ => []) []
    (fun _ => {| response_text := Some (lit "I cannot help with that");
                 groundingChunks := None |}) csv_crash
  = inl (Error (lit "Could not parse JSON response")).
Proof. reflexivity. Qed.

(** Only an empty summary after trimming is replaced; other summaries
    are sent trimmed. *)
Example processedInput_trims :
  recent_activity_summary
    (processedInput {| customer_message := lit "x"; account_tier := Free;
                       recent_activity_summary := lit "  Upgraded plan ";
                       use_search := None |})
  = lit "Upgraded plan".
Proof. reflexivity. Qed.

Lemma grounding_requires_search_witness :
  triageMessage parse_embedded (fun _ => []) [] citing_backend csv_crash
  = inr {| parsed := embedded_object; grounding_sources := [] |}.
Proof.
  destruct (triageMessage parse_embedded (fun _ => []) [] citing_backend
              csv_crash) as [e|result] eqn:E; [discriminate|].
  destruct (@grounding_requires_search jsstring parse_embedded (fun _ => [])
              [] citing_backend csv_crash result E) as [Hoff _].
  assert (Hflag : use_search csv_crash <> Some true) by discriminate.
  specialize (Hoff Hflag).
  destruct result as [v g]. cbn in Hoff. subst g.
  vm_compute in E. injection E as <-. reflexivity.
Defined.

(** With the flag set the same answer carries its citation. *)
Example grounding_with_search :
  option_map (@grounding_sources jsstring)
    (match triageMessage parse_embedded (fun _ => []) [] citing_backend
             {| customer_message := lit "x"; account_tier := Free;
                recent_activity_summary := []; use_search := Some true |}
     with inr r => Some r | inl _ => None end)
  = Some [ {| title := lit "Source"; uri := lit "https://example.org" |} ].
Proof. reflexivity. Qed.

End TriageScenarios.

(* ================================================================== *)
(** ** Teardown of the live session                                    *)
(* ================================================================== *)

Section Teardown.

Lemma forEach_call (A : Type) (f : A -> Call) (l : list A) (st : Component) :
  forEach l (fun a => call (f a)) st = (Returned tt, st, map f l).
Proof.
  induction l as [|a l IH]; [reflexivity|].
  cbn [forEach map]. unfold bind at 1. unfold call at 1. now rewrite IH.
Qed.

Lemma user_message_nil : user_message [] = [].
Proof. reflexivity. Qed.

(** [stopLiveTriage] in one equation: it returns, releases what is held,
    leaves the three refs empty and then triages the user's words. *)
Lemma stopLiveTriage_eq (st : Component) :
  outcome_of stopLiveTriage st = Returned tt
  /\ calls_of stopLiveTriage st = releases st ++ auto_triage st
  /\ streamRef (state_after stopLiveTriage st) = None
  /\ audioContextsRef (state_after stopLiveTriage st) = None
  /\ sessionRef (state_after stopLiveTriage st) = None
  /\ liveTranscription (state_after stopLiveTriage st) = liveTranscription st.
Proof.
  destruct st as [inp live log ctxs stream session cursor active n].
  unfold outcome_of, state_after, calls_of, releases, auto_triage.
  cbn [streamRef audioContextsRef sessionRef liveTranscription input].
  unfold stopLiveTriage, handleTriage, user_message.
  destruct stream as [[tracks]|], ctxs as [[ci co]|], session as [h|];
    unfold deref; unfold bind, gets, modify, ret, throw;
    cbn [isSome streamRef audioContextsRef sessionRef getTracks
         ctx_input ctx_output set_streamRef set_audioContextsRef
         set_sessionRef setIsLiveMode liveTranscription input];
    rewrite ?forEach_call; unfold call;
    cbn [isSome streamRef audioContextsRef sessionRef getTracks
         ctx_input ctx_output set_streamRef set_audioContextsRef
         set_sessionRef setIsLiveMode liveTranscription input];
    (destruct log as [|entry log];
     [ cbn; rewrite ?app_nil_r; repeat split; reflexivity
     | cbn [List.length Nat.ltb Nat.leb];
       destruct (truthy (trim (join (lit " ")
                   (map text (filter isUser (entry :: log)))))) eqn:E;
       cbn [setInput input customer_message negb fst snd app];
       rewrite ?E; cbn [negb fst snd app];
       rewrite ?app_nil_r, <- ?app_assoc; repeat split; reflexivity ]).
Qed.

End Teardown.

Section TeardownClaims.

Lemma filter_releases (st : Component) :
  filter is_release (releases st ++ auto_triage st) = releases st.
Proof.
  rewrite filter_app.
  assert (Hr : filter is_release (releases st) = releases st).
  { apply filter_all. unfold releases.
    repeat (apply Forall_app; split).
    - destruct (streamRef st) as [stream|]; [|constructor].
      apply Forall_map. apply Forall_forall. reflexivity.
    - destruct (audioContextsRef st); repeat constructor.
    - destruct (sessionRef st); repeat constructor. }
  rewrite Hr. unfold auto_triage.
  destruct (truthy _); cbn; now rewrite app_nil_r.
Qed.

(** C5 -- [stopLiveTriage] never throws; its release calls are those of
    the resources held, in the order microphone tracks, input context,
    output context, session, a missing resource being skipped; called
    again right after, it still returns and releases nothing. *)
Theorem stopLiveTriage_idempotent (st : Component) :
  outcome_of stopLiveTriage st = Returned tt
  /\ filter is_release (calls_of stopLiveTriage st) = releases st
  /\ streamRef (state_after stopLiveTriage st) = None
  /\ audioContextsRef (state_after stopLiveTriage st) = None
  /\ sessionRef (state_after stopLiveTriage st) = None
  /\ outcome_of stopLiveTriage (state_after stopLiveTriage st) = Returned tt
  /\ filter is_release
       (calls_of stopLiveTriage (state_after stopLiveTriage st)) = [].
Proof.
  destruct (stopLiveTriage_eq st) as [Ho [Hc [Hs [Ha [Hh _]]]]].
  destruct (stopLiveTriage_eq (state_after stopLiveTriage st))
    as [Ho2 [Hc2 _]].
  repeat split; try assumption.
  - rewrite Hc. apply filter_releases.
  - rewrite Hc2, filter_releases. unfold releases.
    now rewrite Hs, Ha, Hh.
Qed.

(** Nothing held, nothing released; everything held, everything
    released in order. *)
Example releases_in_order :
  filter is_release (calls_of stopLiveTriage (live_component []))
  = [Track_stop 7%nat; AudioContext_close 1%nat; AudioContext_close 2%nat;
     Session_close 3%nat].
Proof. reflexivity. Qed.

(** C4, as stated, fails when the user's entries hold no visible text:
    the log has a user-attributed entry, and stopping triggers no triage
    request. *)
Lemma blank_user_entry_triggers_nothing :
  let log := [ {| text := lit " "; isUser := true |} ] in
  (exists e, In e log /\ isUser e = true)
  /\ triage_requests (calls_of stopLiveTriage (live_component log)) = [].
Proof.
  cbv zeta. split.
  - eexists. split; [now left|reflexivity].
  - reflexivity.
Qed.

Lemma triage_requests_releases (st : Component) (tail : list Call) :
  triage_requests (releases st ++ tail) = triage_requests tail.
Proof.
  unfold releases.
  destruct (streamRef st) as [[tracks]|], (audioContextsRef st),
    (sessionRef st); cbn [getTracks];
    try (induction tracks as [|t tracks IH]; cbn; [reflexivity|exact IH]);
    reflexivity.
Qed.

(** C4, amended -- when the user-attributed texts of the transcript,
    space-joined in log order, hold something besides white space,
    [stopLiveTriage] makes exactly one triage request, after the release
    calls; its customer message is that joined text and its other fields
    are those of the current input. *)
Theorem stopLiveTriage_triages_user_words (st : Component) :
  truthy (trim (user_message (liveTranscription st))) = true ->
  outcome_of stopLiveTriage st = Returned tt
  /\ calls_of stopLiveTriage st
     = releases st
       ++ [TriageMessage
             (with_message (input st) (user_message (liveTranscription st)))]
  /\ triage_requests (calls_of stopLiveTriage st)
     = [with_message (input st) (user_message (liveTranscription st))].
Proof.
  intros Hwords.
  destruct (stopLiveTriage_eq st) as [Ho [Hc _]].
  unfold auto_triage in Hc. rewrite Hwords in Hc.
  repeat split; try assumption.
  rewrite Hc, triage_requests_releases. reflexivity.
Qed.

Lemma stopLiveTriage_triages_user_words_witness :
  triage_requests (calls_of stopLiveTriage (live_component login_log))
  = [ {| customer_message := lit "I can't log in It just times out";
         account_tier := Pro;
         recent_activity_summary := [];
         use_search := Some false |} ].
Proof.
  destruct (@stopLiveTriage_triages_user_words (live_component login_log)
              eq_refl) as [_ [_ H]].
  rewrite H. reflexivity.
Defined.

End TeardownClaims.

(* ================================================================== *)
(** ** The playback scheduler                                          *)
(* ================================================================== *)

Section Scheduler.


Lemma Math_max_r (a b : Q) : b <= Math_max a b.
Proof.
  unfold Math_max. destruct (Qle_bool a b) eqn:E.
  - apply Qle_refl.
  - destruct (Qlt_le_dec b a) as [H|H].
    + now apply Qlt_le_weak.
    + apply Qle_bool_iff in H. congruence.
Qed.










Lemma run_cons (e : Event) (rest : list Event) (st : Component) :
  snd (run (e :: rest) st)
  = calls_of (dispatch e) st
    ++ snd (run rest (state_after (dispatch e) st)).
Proof.
  unfold calls_of, state_after. cbn [run].
  destruct (dispatch e st) as [[r st1] calls1]. cbn [fst snd].
  destruct (run rest st1) as [st2 calls2]. reflexivity.
Qed.





End Scheduler.

Section SchedulerClaims.



(** A chunk that arrives late opens a gap; the start times still do not
    decrease. *)
Example late_chunk_gap :
  starts (snd (run [ Message 5 (audio_message (lit "AAAAAAAA"));
                     Message 8 (audio_message (lit "AAAAAAAA")) ]
                   (live_component [])))
  = [ (5, 3 / 24000); (8, 3 / 24000) ].
Proof. reflexivity. Qed.

(** With nothing playing the interruption stops nothing and still
    resets the cursor. *)
Example interrupt_idle :
  calls_of interrupt (live_component []) = []
  /\ nextStartTimeRef
       (state_after interrupt
          (state_after (scheduleChunk 5 (lit "AAAAAAAA")) (live_component [])))
     = 0.
Proof. split; reflexivity. Qed.

(** Without the interruption the same chunk would wait for the cursor. *)
Example uninterrupted_chunk_waits :
  map fst (starts (calls_of (scheduleChunk 2 (lit "AAAAAAAA"))
                            playing_component))
  = [9].
Proof. reflexivity. Qed.

End SchedulerClaims.

(* ================================================================== *)
(** ** More on the codec                                               *)
(* ================================================================== *)

Section CodecMore.

Lemma list_ind2 (A : Type) (P : list A -> Prop) :
  P [] ->
  (forall a, P [a]) ->
  (forall a b rest, P rest -> P (a :: b :: rest)) ->
  forall l, P l.
Proof.
  intros H0 H1 H2.
  fix IH 1.
  intros [|a [|b rest]]; [apply H0 | apply H1 | apply H2; apply IH].
Qed.

Lemma int16_of_bytes_range (lo hi : byte) : int16_range (int16_of_bytes lo hi).
Proof.
  unfold int16_range, int16_of_bytes.
  pose proof (to_N_lt_256 lo). pose proof (to_N_lt_256 hi).
  destruct (32768 <=? Z.of_N (Byte.to_N lo) + 256 * Z.of_N (Byte.to_N hi))%Z
    eqn:E; [apply Z.leb_le in E | apply Z.leb_gt in E]; lia.
Qed.

Lemma ToUint8_of_Z (z : Z) (b : byte) :
  (z mod 256 = Z.of_N (Byte.to_N b))%Z -> ToUint8 z = b.
Proof.
  intros E. unfold ToUint8. rewrite E, N2Z.id. apply octet_to_N.
Qed.

(** The bytes of a sixteen-bit element read from two bytes are those two
    bytes. *)
Lemma int16_bytes_of_bytes (lo hi : byte) :
  int16_bytes (int16_of_bytes lo hi) = [lo; hi].
Proof.
  unfold int16_bytes, int16_of_bytes.
  pose proof (to_N_lt_256 lo). pose proof (to_N_lt_256 hi).
  destruct (32768 <=? Z.of_N (Byte.to_N lo) + 256 * Z.of_N (Byte.to_N hi))%Z
    eqn:E; [apply Z.leb_le in E | apply Z.leb_gt in E];
    f_equal; [| f_equal | | f_equal]; apply ToUint8_of_Z; divmod.
Qed.

(** The view of a byte sequence as sixteen-bit elements: it exists
    exactly for an even number of bytes, has half as many elements, all
    in range, and its bytes are the sequence. *)
Lemma Int16Array_of_bytes_spec (bs : list byte) :
  match Int16Array_of_bytes bs with
  | Some a =>
      Nat.even (List.length bs) = true
      /\ List.length bs = (2 * List.length a)%nat
      /\ Forall int16_range a
      /\ Uint8Array_of_Int16Array a = bs
  | None => Nat.even (List.length bs) = false
  end.
Proof.
  induction bs as [|b|lo hi rest IH] using list_ind2.
  - cbn. repeat split. constructor.
  - reflexivity.
  - cbn [Int16Array_of_bytes List.length Nat.even].
    destruct (Int16Array_of_bytes rest) as [a|]; cbn [option_map].
    + destruct IH as [He [Hl [Hr Hb]]]. repeat split.
      * exact He.
      * cbn [List.length]. lia.
      * constructor; [apply int16_of_bytes_range | exact Hr].
      * unfold Uint8Array_of_Int16Array in *. cbn [flat_map].
        rewrite int16_bytes_of_bytes, Hb. reflexivity.
    + exact IH.
Qed.

Lemma int16_sample_stored (v : Z) :
  int16_range v -> ToInt16 (times_32768 (int16_sample v)) = v.
Proof.
  intros Hv. unfold int16_sample. cbn [times_32768].
  assert (Ht : truncate ((v # 32768) * 32768) = v).
  { unfold truncate. cbn. apply Z.quot_mul. lia. }
  rewrite ToInt16_in_range; rewrite Ht; [reflexivity | exact Hv].
Qed.

Lemma int16_sample_below_full_scale (v : Z) :
  int16_range v -> below_full_scale (int16_sample v).
Proof.
  unfold int16_range, int16_sample, below_full_scale, Qle, Qlt. cbn. lia.
Qed.

Lemma base64_encode_length (bs : list byte) :
  List.length (base64_encode bs) = (4 * ((List.length bs + 2) / 3))%nat.
Proof.
  induction bs as [|a|a b|a b c rest IH] using list_ind3;
    try reflexivity.
  cbn [base64_encode]. rewrite length_app, IH.
  unfold sextets_of_octets. cbn [map List.length].
  replace (S (S (S (List.length rest))) + 2)%nat
    with ((List.length rest + 2) + 1 * 3)%nat by lia.
  rewrite Nat.div_add by lia. lia.
Qed.

Lemma base64_encode_units (bs : list byte) :
  Forall (fun c => (exists v, (v < 64)%N /\ unit_sextet c = Some v)
                   \/ c = pad_unit)
         (base64_encode bs).
Proof.
  rewrite base64_encode_split. apply Forall_app. split.
  - apply Forall_map. eapply Forall_impl; [|apply encode_sextets_lt_64].
    intros v Hv. left. exists v. split; [exact Hv|].
    now apply unit_sextet_unit.
  - destruct (encode_length bs) as [_ [_ [_ [-> | [-> | ->]]]]];
      repeat constructor; now right.
Qed.

Lemma Uint8Array_length (a : list Z) :
  List.length (Uint8Array_of_Int16Array a) = (2 * List.length a)%nat.
Proof.
  unfold Uint8Array_of_Int16Array.
  induction a as [|v a IH]; [reflexivity|].
  cbn [flat_map int16_bytes app List.length]. rewrite IH. lia.
Qed.


(** X4 -- [createPcmBlob] never throws; its tag is audio/pcm at sixteen
    kilohertz and its text carries two bytes per sample, in four code
    units for every three bytes begun. *)
Theorem createPcmBlob_shape (samples : list number) :
  exists blob bytes,
    createPcmBlob samples = Some blob
    /\ mimeType blob = lit "audio/pcm;rate=16000"
    /\ decodeBase64 (data blob) = Some bytes
    /\ List.length bytes = (2 * List.length samples)%nat
    /\ List.length (data blob)
       = (4 * ((2 * List.length samples + 2) / 3))%nat.
Proof.
  unfold createPcmBlob. rewrite encodeBase64_total. cbn [option_map].
  eexists. eexists. split; [reflexivity|]. cbn [mimeType data].
  split; [reflexivity|].
  split; [apply decodeBase64_base64_encode|].
  rewrite base64_encode_length, Uint8Array_length, length_map.
  split; reflexivity.
Qed.

(** X5 -- [encodeBase64] never throws; its text is made of alphabet
    units and padding only, and is four units long for every three bytes
    begun. *)
Theorem encodeBase64_shape (bytes : list byte) :
  exists t,
    encodeBase64 bytes = Some t
    /\ List.length t = (4 * ((List.length bytes + 2) / 3))%nat
    /\ Forall (fun c => (exists v, (v < 64)%N /\ unit_sextet c = Some v)
                        \/ c = pad_unit) t.
Proof.
  exists (base64_encode bytes). split; [apply encodeBase64_total|].
  split; [apply base64_encode_length | apply base64_encode_units].
Qed.

End CodecMore.

Section Quantisation.

Lemma quot_sign (a d : Z) :
  (0 < d)%Z ->
  ((0 <= a -> 0 <= a ÷ d) /\ (a <= 0 -> a ÷ d <= 0))%Z.
Proof.
  intros Hd. split; intros Ha.
  - apply Z.quot_pos; lia.
  - destruct (@quot_spec a d Hd) as [r [D [Hr [_ Hneg]]]].
    specialize (Hneg Ha). nia.
Qed.

(** Truncation toward zero never reverses an order. *)
Lemma truncate_monotone (p q : Q) : p <= q -> (truncate p <= truncate q)%Z.
Proof.
  destruct p as [a b], q as [c d]. unfold Qle, truncate. cbn.
  intros H.
  destruct (@quot_spec a (Z.pos b) ltac:(lia)) as [r1 [D1 [Hr1 [Hp1 Hn1]]]].
  destruct (@quot_spec c (Z.pos d) ltac:(lia)) as [r2 [D2 [Hr2 [Hp2 Hn2]]]].
  destruct (@quot_sign a (Z.pos b) ltac:(lia)) as [Sa1 Sa2].
  destruct (@quot_sign c (Z.pos d) ltac:(lia)) as [Sc1 Sc2].
  set (t1 := (a ÷ Z.pos b)%Z) in *. set (t2 := (c ÷ Z.pos d)%Z) in *.
  destruct (Z.le_gt_cases t1 t2) as [|Hgt]; [assumption|exfalso].
  destruct (Z.le_gt_cases 0 a) as [Ha|Ha], (Z.le_gt_cases 0 c) as [Hc|Hc].
  - specialize (Hp1 Ha). specialize (Hp2 Hc). nia.
  - specialize (Hp1 Ha). specialize (Hn2 ltac:(lia)).
    specialize (Sa1 Ha). specialize (Sc2 ltac:(lia)). nia.
  - specialize (Hn1 ltac:(lia)). specialize (Hp2 Hc).
    specialize (Sa2 ltac:(lia)). specialize (Sc1 Hc). lia.
  - specialize (Hn1 ltac:(lia)). specialize (Hn2 ltac:(lia)). nia.
Qed.

(** X6 -- below positive full scale the wire keeps the order of
    samples: of two samples of [-1, 1), the smaller one does not come
    back larger than the other. *)
Theorem round_trip_keeps_order (x y : Q) :
  -1 <= x -> x <= y -> y < 1 ->
  exists x' y',
    round_trip [Finite x; Finite y] = Some [[Finite x'; Finite y']]
    /\ x' <= y'.
Proof.
  intros Hlo Hxy Hhi. rewrite round_trip_eq. cbn [map times_32768].
  unfold int16_sample. eexists. eexists. split; [reflexivity|].
  assert (Hx : x < 1) by (eapply Qle_lt_trans; eassumption).
  assert (Hy : -1 <= y) by (eapply Qle_trans; eassumption).
  rewrite !ToInt16_in_range by now apply truncate_scaled_range.
  assert (Ht : (truncate (x * 32768) <= truncate (y * 32768))%Z).
  { apply truncate_monotone. apply Qmult_le_compat_r; [exact Hxy|].
    unfold Qle. cbn. lia. }
  unfold Qle. cbn. lia.
Qed.

Lemma round_trip_keeps_order_witness :
  exists x' y',
    round_trip [Finite (-1 # 3); Finite (2 # 7)]
    = Some [[Finite x'; Finite y']]
    /\ x' <= y'.
Proof.
  apply (@round_trip_keeps_order (-1 # 3) (2 # 7));
    unfold Qle, Qlt; cbn; lia.
Defined.

(** Positive full scale breaks the order: 1.0 comes back below 0.5. *)
Example full_scale_breaks_order :
  round_trip [Finite (1 # 2); Finite 1]
  = Some [[Finite (16384 # 32768); Finite (-32768 # 32768)]].
Proof. reflexivity. Qed.

End Quantisation.

(* ================================================================== *)
(** ** More on strings: trimming and occurrences                       *)
(* ================================================================== *)

Section Trimming.











Lemma or_else_truthy (a b : jsstring) :
  b <> [] -> or_else a b <> [].
Proof.
  intros Hb. unfold or_else. destruct a; cbn; [exact Hb|discriminate].
Qed.

End Trimming.

Section Occurrences.

(** A string with an occurrence of [c] splits at the first one. *)
Lemma split_first (s : jsstring) (c : N) :
  In c s -> exists pre rest, s = pre ++ c :: rest /\ ~ In c pre.
Proof.
  induction s as [|x s IH]; [intros []|].
  intros Hin. destruct (N.eq_dec x c) as [->|Hne].
  - exists [], s. split; [reflexivity|intros []].
  - destruct Hin as [->|Hin]; [congruence|].
    destruct (IH Hin) as [pre [rest [-> Hpre]]].
    exists (x :: pre), rest. split; [reflexivity|].
    intros [H|H]; [congruence|contradiction].
Qed.

(** A string with an occurrence of [c] splits at the last one. *)
Lemma split_last (s : jsstring) (c : N) :
  In c s -> exists pre post, s = pre ++ c :: post /\ ~ In c post.
Proof.
  intros Hin. apply in_rev in Hin.
  destruct (@split_first (rev s) c Hin) as [a [b [E Ha]]].
  exists (rev b), (rev a). split.
  - rewrite <- (rev_involutive s), E, rev_app_distr. cbn [rev].
    now rewrite <- app_assoc.
  - intros H. apply Ha. now apply in_rev.
Qed.

End Occurrences.

(* ================================================================== *)
(** ** More on structured triage                                       *)
(* ================================================================== *)

Section TriageMore.

Variable JSON : Type.
Variable JSON_parse : jsstring -> option JSON.
Variable JSON_stringify : TriageInput -> jsstring.
Variable SYSTEM_INSTRUCTION : jsstring.
Variable generateContent : GenerateContentRequest -> GenerateContentResponse.

Local Abbreviation request :=
  (buildRequest JSON_stringify SYSTEM_INSTRUCTION).
Local Abbreviation triage :=
  (triageMessage JSON_parse JSON_stringify SYSTEM_INSTRUCTION generateContent).



(** X8 -- what the recovery parses.  When the text does not parse as it
    is and holds both braces, then either the first opening brace
    precedes the last closing one and the recovery parses exactly the
    substring between them, braces included; or the last closing brace
    comes first and the recovery parses the empty string. *)
Theorem parseResult_recovery_text (raw : jsstring) :
  JSON_parse (trim raw) = None ->
  In open_brace raw -> In close_brace raw ->
  ((indexOf raw open_brace < lastIndexOf raw close_brace)%Z
   /\ exists pre mid post,
        raw = pre ++ (open_brace :: mid ++ [close_brace]) ++ post
        /\ ~ In open_brace pre /\ ~ In close_brace post
        /\ parseResult JSON_parse raw
           = match JSON_parse (open_brace :: mid ++ [close_brace]) with
             | Some v => inr v
             | None => inl SyntaxError
             end)
  \/ ((lastIndexOf raw close_brace < indexOf raw open_brace)%Z
      /\ parseResult JSON_parse raw
         = match JSON_parse [] with
           | Some v => inr v
           | None => inl SyntaxError
           end).
Proof.
  intros Hdirect Ho Hc.
  assert (Hrun : parseResult JSON_parse raw
                 = match JSON_parse (slice raw (indexOf raw open_brace)
                                           (lastIndexOf raw close_brace + 1))
                   with
                   | Some v => inr v
                   | None => inl SyntaxError
                   end).
  { unfold parseResult. rewrite Hdirect.
    destruct (Z.eqb_spec (indexOf raw open_brace) (-1)) as [E|_].
    { apply indexOf_absent in E. contradiction. }
    destruct (Z.eqb_spec (lastIndexOf raw close_brace) (-1)) as [E|_].
    { apply lastIndexOf_absent in E. contradiction. }
    reflexivity. }
  destruct (split_first raw open_brace Ho) as [pre [rest [E1 Hpre]]].
  destruct (split_last raw close_brace Hc) as [pre' [post [E2 Hpost]]].
  assert (I1 : indexOf raw open_brace = Z.of_nat (List.length pre)).
  { rewrite E1. now apply indexOf_first. }
  assert (I2 : lastIndexOf raw close_brace = Z.of_nat (List.length pre')).
  { rewrite E2. now apply lastIndexOf_last. }
  assert (E : pre ++ open_brace :: rest = pre' ++ close_brace :: post)
    by congruence.
  destruct (app_eq_app _ _ _ _ E) as [l [[Ea Eb] | [Ea Eb]]].
  - (* the closing brace is not after the opening one *)
    destruct l as [|x l].
    + cbn in Eb. discriminate.
    + right. rewrite Hrun, I1, I2.
      assert (Hlt : (List.length pre' < List.length pre)%nat).
      { rewrite Ea, length_app. cbn. lia. }
      split; [lia|].
      unfold slice.
      destruct (Z.ltb_spec (Z.of_nat (List.length pre)) 0); [lia|].
      destruct (Z.ltb_spec (Z.of_nat (List.length pre') + 1) 0); [lia|].
      assert (Hlen : (List.length pre < List.length raw)%nat).
      { rewrite E1, length_app. cbn. lia. }
      rewrite !Z.min_l by lia.
      replace (Z.to_nat (Z.of_nat (List.length pre') + 1
                         - Z.of_nat (List.length pre))) with 0%nat by lia.
      reflexivity.
  - destruct l as [|x l].
    + cbn in Eb. discriminate.
    + cbn [app] in Eb. injection Eb as <- Erest.
      left. rewrite I1, I2.
      split; [rewrite Ea, length_app; cbn; lia|].
      exists pre, l, post.
      assert (Eraw : raw = pre ++ (open_brace :: l ++ [close_brace]) ++ post).
      { rewrite E1, Erest. cbn [app]. repeat rewrite <- app_assoc.
        reflexivity. }
      split; [exact Eraw|]. split; [exact Hpre|]. split; [exact Hpost|].
      rewrite Hrun. rewrite Eraw at 1 2 3.
      now rewrite (@slice_braces pre l post Hpre Hpost).
Qed.

Lemma sources_of_chunks_titled (chunks : list GroundingChunk) :
  Forall (fun src => title src <> []) (sources_of_chunks chunks)
  /\ List.length (sources_of_chunks chunks)
     = List.length (filter has_web chunks)
  /\ map uri (sources_of_chunks chunks)
     = flat_map (fun chunk => match web chunk with
                              | Some w => [web_uri w]
                              | None => []
                              end) chunks.
Proof.
  unfold sources_of_chunks, has_web.
  induction chunks as [|c chunks [IH1 [IH2 IH3]]].
  - repeat split. constructor.
  - cbn [flat_map filter]. destruct (web c) as [w|]; cbn [app].
    + repeat split.
      * constructor; [|exact IH1]. cbn [title].
        destruct (web_title w) as [t|]; [|discriminate].
        apply or_else_truthy. discriminate.
      * cbn [List.length]. now rewrite IH2.
      * cbn [map uri]. now rewrite IH3.
    + repeat split; assumption.
Qed.

(** X9 -- the grounding sources of a result never have an empty title;
    they are, in order, the chunks of the response that carry a web
    part, each with that part's address. *)
Theorem grounding_sources_titled (input : TriageInput)
    (result : TriageResult JSON) :
  triage input = inr result ->
  Forall (fun src => title src <> []) (grounding_sources result)
  /\ (forall chunks,
        use_search input = Some true ->
        groundingChunks (generateContent (request input)) = Some chunks ->
        List.length (grounding_sources result)
        = List.length (filter has_web chunks)
        /\ map uri (grounding_sources result)
           = flat_map (fun chunk => match web chunk with
                                    | Some w => [web_uri w]
                                    | None => []
                                    end) chunks).
Proof.
  unfold triageMessage.
  set (response := generateContent (request input)).
  unfold handleResponse.
  destruct (response_text response) as [raw|]; [|discriminate].
  destruct (negb (truthy raw)); [discriminate|].
  destruct (parseResult JSON_parse raw) as [e|v]; [discriminate|].
  intros E. injection E as <-. cbn [grounding_sources].
  unfold extractGrounding. split.
  - destruct (is_true (use_search input)); [|constructor].
    destruct (groundingChunks response) as [chunks|]; [|constructor].
    apply sources_of_chunks_titled.
  - intros chunks Hs Hc. rewrite Hs, Hc. cbn [is_true].
    split; apply sources_of_chunks_titled.
Qed.

(** X10 -- [triageMessage] fails in three ways only: with "Empty
    response from AI engine", exactly when the response has no text or
    an empty one; with "Could not parse JSON response"; or with the
    [SyntaxError] of the second [JSON.parse]. *)
Theorem triageMessage_failures (input : TriageInput) :
  (triage input = inl (Error (lit "Empty response from AI engine"))
   <-> response_text (generateContent (request input)) = None
       \/ response_text (generateContent (request input)) = Some [])
  /\ (forall e,
        triage input = inl e ->
        e = Error (lit "Empty response from AI engine")
        \/ e = Error (lit "Could not parse JSON response")
        \/ e = SyntaxError).
Proof.
  unfold triageMessage.
  set (response := generateContent (request input)).
  unfold handleResponse.
  destruct (response_text response) as [[|c raw]|]; cbn [truthy negb].
  - split; [split; auto|]. intros e E. injection E as <-. now left.
  - unfold parseResult.
    destruct (JSON_parse (trim (c :: raw))); [split|].
    + split; [discriminate|]. intros [H|H]; discriminate.
    + intros e H. discriminate.
    + destruct (negb (indexOf (c :: raw) open_brace =? -1)%Z
                && negb (lastIndexOf (c :: raw) close_brace =? -1)%Z).
      * destruct (JSON_parse _); split;
          try (split; [discriminate | intros [H|H]; discriminate]);
          intros e H; try discriminate.
        injection H as <-. auto.
      * split.
        -- split; [intros H; vm_compute in H; discriminate
                  | intros [H|H]; discriminate].
        -- intros e H. injection H as <-. auto.
  - split; [split; auto|]. intros e E. injection E as <-. now left.
Qed.

End TriageMore.

Lemma grounding_sources_titled_witness :
  exists result,
    triageMessage parse_embedded (fun _ => []) [] citing_backend
      {| customer_message := lit "x"; account_tier := Free;
         recent_activity_summary := []; use_search := Some true |}
    = inr result
    /\ Forall (fun src => title src <> []) (grounding_sources result).
Proof.
  destruct (triageMessage parse_embedded (fun _ => []) [] citing_backend
              {| customer_message := lit "x"; account_tier := Free;
                 recent_activity_summary := []; use_search := Some true |})
    as [e|result] eqn:E; [discriminate|].
  exists result. split; [reflexivity|].
  apply (@grounding_sources_titled jsstring parse_embedded (fun _ => [])
           [] citing_backend _ result E).
Defined.

Lemma parseResult_recovery_text_witness :
  parseResult parse_embedded (lit "} oops {") = inl SyntaxError.
Proof.
  assert (Ho : In open_brace (lit "} oops {"))
    by (vm_compute; intuition).
  assert (Hc : In close_brace (lit "} oops {"))
    by (vm_compute; intuition).
  destruct (@parseResult_recovery_text jsstring parse_embedded
              (lit "} oops {") eq_refl Ho Hc) as [[Hlt _] | [_ H]].
  - vm_compute in Hlt. discriminate.
  - rewrite H. reflexivity.
Defined.

Lemma triageMessage_failures_witness :
  triageMessage parse_embedded (fun _ => []) [] mute_backend csv_crash
  = inl (Error (lit "Empty response from AI engine")).
Proof.
  destruct (@triageMessage_failures jsstring parse_embedded (fun _ => []) []
              mute_backend csv_crash) as [[_ H] _].
  apply H. left. reflexivity.
Defined.

(* ================================================================== *)
(** ** More on the message handler                                     *)
(* ================================================================== *)

Section HandlerEquations.

Lemma appendTranscription_entries (o : option jsstring) (u : bool)
    (st : Component) :
  appendTranscription o u st
  = (Returned tt, setLiveTranscription (fun prev => prev ++ entries o u) st,
     []).
Proof.
  destruct o as [txt|]; [reflexivity|].
  destruct st. unfold appendTranscription, ret, setLiveTranscription.
  cbn. now rewrite app_nil_r.
Qed.

Lemma scheduleChunk_eq (t : Q) (payload : jsstring) (st : Component) :
  scheduleChunk t payload st
  = match decodeBase64 payload with
    | None =>
        (Thrown InvalidCharacterError,
         set_nextStartTimeRef (Math_max (nextStartTimeRef st) t) st, [])
    | Some bytes =>
        match decodeAudioData bytes 24000 1 with
        | None =>
            (Thrown RangeError,
             set_nextStartTimeRef (Math_max (nextStartTimeRef st) t) st, [])
        | Some b =>
            (Returned tt, schedule t b st,
             [Source_start {| node := created st; buffer := b |}
                           (Math_max (nextStartTimeRef st) t)])
        end
    end.
Proof.
  unfold scheduleChunk, orThrow, createBufferSource.
  destruct (decodeBase64 payload) as [bytes|];
    unfold bind, gets, modify, call, ret, throw; cbv beta iota;
    [destruct (decodeAudioData bytes 24000 1) as [b|]|];
    reflexivity.
Qed.

Lemma interrupt_eq (st : Component) :
  interrupt st
  = (Returned tt, flush st, map Source_stop (activeSourcesRef st)).
Proof.
  unfold interrupt. unfold bind at 1. unfold gets at 1.
  unfold bind at 1. rewrite forEach_call.
  unfold bind, modify, flush. cbn. now rewrite app_nil_r.
Qed.

(** [onmessage] in one equation. *)
Lemma onmessage_eq (t : Q) (msg : LiveServerMessage) (st : Component) :
  onmessage t msg st
  = match inlineData msg with
    | Some payload =>
        if truthy payload then
          match audioContextsRef st with
          | None => (Returned tt, transcribe msg st, [])
          | Some _ =>
              match scheduleChunk t payload (transcribe msg st) with
              | (Returned _, st1, calls1) =>
                  match interruptedPart msg st1 with
                  | (r, st2, calls2) => (r, st2, calls1 ++ calls2)
                  end
              | (Thrown e, st1, calls1) => (Thrown e, st1, calls1)
              end
          end
        else interruptedPart msg (transcribe msg st)
    | None => interruptedPart msg (transcribe msg st)
    end.
Proof.
  assert (Hint : forall st',
             (if interrupted msg then interrupt else ret tt) st'
             = interruptedPart msg st').
  { intros st'. unfold interruptedPart.
    destruct (interrupted msg); [apply interrupt_eq | reflexivity]. }
  unfold onmessage.
  unfold bind at 1. rewrite appendTranscription_entries.
  unfold bind at 1. rewrite appendTranscription_entries.
  fold (transcribe msg st). cbn [app].
  assert (Htail : (let (p, calls2) :=
                     let (p, calls2) :=
                       (if interrupted msg then interrupt else ret tt)
                         (transcribe msg st) in
                     let (r, st2) := p in (r, st2, calls2) in
                   let (r, st2) := p in (r, st2, calls2))
                  = interruptedPart msg (transcribe msg st)).
  { rewrite Hint.
    destruct (interruptedPart msg (transcribe msg st)) as [[r s] c].
    reflexivity. }
  destruct (inlineData msg) as [payload|]; [|exact Htail].
  destruct (truthy payload); [|exact Htail].
  unfold bind at 1. unfold gets at 1.
  change (audioContextsRef (transcribe msg st)) with (audioContextsRef st).
  destruct (audioContextsRef st); [|reflexivity].
  unfold bind at 1.
  destruct (scheduleChunk t payload (transcribe msg st))
    as [[[u|e] st1] calls1]; [|reflexivity].
  rewrite Hint.
  destruct (interruptedPart msg st1) as [[r s] c]. reflexivity.
Qed.

End HandlerEquations.

Section HandlerMore.

Lemma transcribe_log (msg : LiveServerMessage) (st : Component) :
  liveTranscription (transcribe msg st) = liveTranscription st ++ heard msg.
Proof. unfold transcribe, heard. cbn. now rewrite app_assoc. Qed.


Lemma Set_add_incl (s : AudioBufferSourceNode)
    (l : list AudioBufferSourceNode) :
  incl (Set_add s l) (s :: l).
Proof.
  unfold Set_add. destruct (existsb (same_node s) l).
  - apply incl_tl, incl_refl.
  - intros x Hx. apply in_app_or in Hx. destruct Hx as [Hx|[<-|[]]].
    + now right.
    + now left.
Qed.

(** X11 -- a chunk that does not decode aborts the handler: it throws
    (also when the message carries the interruption signal, which is
    then not acted on), starts and stops nothing and leaves the active
    set alone; the transcriptions of the message are already appended
    and the cursor has already been raised to the device time. *)
Theorem onmessage_undecodable (t : Q) (msg : LiveServerMessage)
    (st : Component) (payload : jsstring) :
  inlineData msg = Some payload -> truthy payload = true ->
  audioContextsRef st <> None ->
  decoded payload = None ->
  (outcome_of (onmessage t msg) st = Thrown InvalidCharacterError
   \/ outcome_of (onmessage t msg) st = Thrown RangeError)
  /\ calls_of (onmessage t msg) st = []
  /\ activeSourcesRef (state_after (onmessage t msg) st)
     = activeSourcesRef st
  /\ nextStartTimeRef (state_after (onmessage t msg) st)
     = Math_max (nextStartTimeRef st) t
  /\ liveTranscription (state_after (onmessage t msg) st)
     = liveTranscription st ++ heard msg.
Proof.
  intros Hp Ht Hctx Hdec.
  unfold outcome_of, state_after, calls_of.
  rewrite onmessage_eq, Hp, Ht.
  destruct (audioContextsRef st) as [ctxs|]; [|congruence].
  rewrite scheduleChunk_eq. unfold decoded in Hdec.
  destruct (decodeBase64 payload) as [bytes|].
  - rewrite Hdec. cbn [fst snd]. repeat split; auto.
    cbn [liveTranscription set_nextStartTimeRef]. apply transcribe_log.
  - cbn [fst snd]. repeat split; auto.
    cbn [liveTranscription set_nextStartTimeRef]. apply transcribe_log.
Qed.

Lemma onmessage_undecodable_witness :
  outcome_of
    (onmessage 12 {| inputTranscription := Some (lit "hello");
                     outputTranscription := None;
                     inlineData := Some (lit "AAAA");
                     interrupted := true |}) playing_component
  = Thrown RangeError
  /\ activeSourcesRef
       (state_after
          (onmessage 12 {| inputTranscription := Some (lit "hello");
                           outputTranscription := None;
                           inlineData := Some (lit "AAAA");
                           interrupted := true |}) playing_component)
     = activeSourcesRef playing_component.
Proof.
  assert (Hctx : audioContextsRef playing_component <> None) by discriminate.
  destruct (@onmessage_undecodable 12
              {| inputTranscription := Some (lit "hello");
                 outputTranscription := None;
                 inlineData := Some (lit "AAAA");
                 interrupted := true |}
              playing_component (lit "AAAA") eq_refl eq_refl Hctx eq_refl)
    as [Hout [_ [Hact _]]].
  split; [|exact Hact].
  destruct Hout as [H|H]; [vm_compute in H; discriminate | exact H].
Defined.

(** X12 -- without an output context a message with audio ends the
    handler at once: nothing is scheduled, and the interruption signal of
    the same message is not acted on either; only the transcriptions are
    kept. *)
Theorem onmessage_without_context (t : Q) (msg : LiveServerMessage)
    (st : Component) (payload : jsstring) :
  inlineData msg = Some payload -> truthy payload = true ->
  audioContextsRef st = None ->
  outcome_of (onmessage t msg) st = Returned tt
  /\ calls_of (onmessage t msg) st = []
  /\ activeSourcesRef (state_after (onmessage t msg) st)
     = activeSourcesRef st
  /\ nextStartTimeRef (state_after (onmessage t msg) st)
     = nextStartTimeRef st
  /\ liveTranscription (state_after (onmessage t msg) st)
     = liveTranscription st ++ heard msg.
Proof.
  intros Hp Ht Hctx.
  unfold outcome_of, state_after, calls_of.
  rewrite onmessage_eq, Hp, Ht, Hctx. cbn [fst snd].
  repeat split. apply transcribe_log.
Qed.



End HandlerMore.

Section RunInvariants.

Lemma run_state_cons (e : Event) (rest : list Event) (st : Component) :
  fst (run (e :: rest) st) = fst (run rest (state_after (dispatch e) st)).
Proof.
  unfold state_after. cbn [run].
  destruct (dispatch e st) as [[r st1] calls1]. cbn [fst snd].
  destruct (run rest st1) as [st2 calls2]. reflexivity.
Qed.

(** What one event leaves alone, and what it adds to the transcript. *)
Lemma dispatch_frame (e : Event) (st : Component) :
  let st1 := state_after (dispatch e) st in
  liveTranscription st1
  = liveTranscription st
    ++ match e with Message _ msg => heard msg | Ended _ => [] end
  /\ input st1 = input st
  /\ isLiveMode st1 = isLiveMode st
  /\ streamRef st1 = streamRef st
  /\ audioContextsRef st1 = audioContextsRef st
  /\ sessionRef st1 = sessionRef st
  /\ forallb is_playback (calls_of (dispatch e) st) = true.
Proof.
  destruct e as [t msg|source]; cbn [dispatch]; cbv zeta.
  - unfold state_after, calls_of. rewrite onmessage_eq.
    pose proof (transcribe_log msg st) as Hlog.
    assert (Hpart : forall st',
              liveTranscription st' = liveTranscription st ++ heard msg ->
              input st' = input st -> isLiveMode st' = isLiveMode st ->
              streamRef st' = streamRef st ->
              audioContextsRef st' = audioContextsRef st ->
              sessionRef st' = sessionRef st ->
              forall calls1, forallb is_playback calls1 = true ->
              match interruptedPart msg st' with
              | (r, st2, calls2) =>
                  liveTranscription st2 = liveTranscription st ++ heard msg
                  /\ input st2 = input st
                  /\ isLiveMode st2 = isLiveMode st
                  /\ streamRef st2 = streamRef st
                  /\ audioContextsRef st2 = audioContextsRef st
                  /\ sessionRef st2 = sessionRef st
                  /\ forallb is_playback (calls1 ++ calls2) = true
              end).
    { intros st' H1 H2 H3 H4 H5 H6 calls1 Hc. unfold interruptedPart.
      destruct (interrupted msg); cbn; rewrite forallb_app, Hc;
        repeat split; auto.
      cbn. apply forallb_forall. intros c Hin.
      apply in_map_iff in Hin. destruct Hin as [s [<- _]]. reflexivity. }
    assert (Hplain : match interruptedPart msg (transcribe msg st) with
                     | (r, st2, calls2) =>
                         liveTranscription st2
                         = liveTranscription st ++ heard msg
                         /\ input st2 = input st
                         /\ isLiveMode st2 = isLiveMode st
                         /\ streamRef st2 = streamRef st
                         /\ audioContextsRef st2 = audioContextsRef st
                         /\ sessionRef st2 = sessionRef st
                         /\ forallb is_playback calls2 = true
                     end).
    { apply (Hpart (transcribe msg st) Hlog eq_refl eq_refl eq_refl eq_refl
                   eq_refl [] eq_refl). }
    destruct (inlineData msg) as [payload|].
    + destruct (truthy payload).
      * destruct (audioContextsRef st) as [ctxs|] eqn:Ectx.
        -- rewrite scheduleChunk_eq.
           destruct (decodeBase64 payload) as [bytes|];
             [destruct (decodeAudioData bytes 24000 1) as [b|]|].
           ++ pose proof (Hpart (schedule t b (transcribe msg st)) Hlog
                            eq_refl eq_refl eq_refl Ectx eq_refl
                            [Source_start
                               {| node := created (transcribe msg st);
                                  buffer := b |}
                               (Math_max
                                  (nextStartTimeRef (transcribe msg st)) t)]
                            eq_refl) as H.
              destruct (interruptedPart msg
                          (schedule t b (transcribe msg st)))
                as [[r st2] calls2].
              cbn [fst snd]. exact H.
           ++ cbn [fst snd]. cbn. repeat split; auto.
           ++ cbn [fst snd]. cbn. repeat split; auto.
        -- cbn [fst snd]. cbn. repeat split; auto.
      * destruct (interruptedPart msg (transcribe msg st))
          as [[r st2] calls2]. exact Hplain.
    + destruct (interruptedPart msg (transcribe msg st))
        as [[r st2] calls2]. exact Hplain.
  - cbn. rewrite app_nil_r. repeat split.
Qed.

Lemma run_frame (evs : list Event) :
  forall st,
    liveTranscription (fst (run evs st))
    = liveTranscription st ++ heard_in evs
    /\ input (fst (run evs st)) = input st
    /\ isLiveMode (fst (run evs st)) = isLiveMode st
    /\ streamRef (fst (run evs st)) = streamRef st
    /\ audioContextsRef (fst (run evs st)) = audioContextsRef st
    /\ sessionRef (fst (run evs st)) = sessionRef st
    /\ forallb is_playback (snd (run evs st)) = true.
Proof.
  induction evs as [|e rest IH]; intros st.
  - cbn. rewrite app_nil_r. repeat split.
  - rewrite run_state_cons, run_cons.
    destruct (dispatch_frame e st) as [H1 [H2 [H3 [H4 [H5 [H6 H7]]]]]].
    destruct (IH (state_after (dispatch e) st))
      as [J1 [J2 [J3 [J4 [J5 [J6 J7]]]]]].
    rewrite J1, J2, J3, J4, J5, J6, H1, H2, H3, H4, H5, H6.
    rewrite forallb_app, H7, J7.
    repeat split. rewrite <- app_assoc. f_equal.
    destruct e; reflexivity.
Qed.

(** X14 -- the transcript is append-only and complete: after any run of
    messages and playback completions, whatever failed or was
    interrupted on the way, it is the transcript before the run followed
    by the fragments of every message in arrival order, the user's
    fragment of a message before the agent's. *)
Theorem transcript_append_only (evs : list Event) (st : Component) :
  liveTranscription (fst (run evs st)) = liveTranscription st ++ heard_in evs.
Proof. apply run_frame. Qed.

(** X15 -- handling messages and playback completions never releases a
    resource and never asks for a triage: the calls of a run only start
    or stop sources, and the input, the live flag and the three refs are
    what they were. *)
Theorem run_only_plays (evs : list Event) (st : Component) :
  forallb is_playback (snd (run evs st)) = true
  /\ input (fst (run evs st)) = input st
  /\ isLiveMode (fst (run evs st)) = isLiveMode st
  /\ streamRef (fst (run evs st)) = streamRef st
  /\ audioContextsRef (fst (run evs st)) = audioContextsRef st
  /\ sessionRef (fst (run evs st)) = sessionRef st.
Proof.
  destruct (run_frame evs st) as [_ [H2 [H3 [H4 [H5 [H6 H7]]]]]].
  repeat split; assumption.
Qed.

End RunInvariants.

Section StopsAfterStarts.

Lemma stops_after_starts_app (c1 c2 : list Call) :
  forall started,
    stops_after_starts started (c1 ++ c2)
    <-> stops_after_starts started c1
        /\ stops_after_starts (begun_into started c1) c2.
Proof.
  induction c1 as [|c c1 IH]; intros started; cbn [app].
  - cbn. tauto.
  - destruct c; cbn [stops_after_starts begun_into]; rewrite IH; tauto.
Qed.

Lemma begun_into_incl (calls : list Call) :
  forall s1 s2, incl s1 s2 -> incl (begun_into s1 calls) (begun_into s2 calls).
Proof.
  induction calls as [|c calls IH]; intros s1 s2 H; [exact H|].
  destruct c; cbn [begun_into]; try (now apply IH).
  apply IH. intros x [<-|Hx]; [now left | right; now apply H].
Qed.

Lemma stops_after_starts_incl (calls : list Call) :
  forall s1 s2,
    incl s1 s2 -> stops_after_starts s1 calls -> stops_after_starts s2 calls.
Proof.
  induction calls as [|c calls IH]; intros s1 s2 H; [auto|].
  destruct c; cbn [stops_after_starts]; try (now apply IH).
  - apply IH. intros x [<-|Hx]; [now left | right; now apply H].
  - intros [Hin Hrest]. split; [now apply H | now apply (IH s1)].
Qed.

Lemma stops_of_known (l started : list AudioBufferSourceNode) :
  incl l started -> stops_after_starts started (map Source_stop l).
Proof.
  induction l as [|s l IH]; intros H; [exact I|].
  cbn [map stops_after_starts]. split.
  - apply H. now left.
  - apply IH. intros x Hx. apply H. now right.
Qed.

Lemma begun_into_stops (l started : list AudioBufferSourceNode) :
  begun_into started (map Source_stop l) = started.
Proof. induction l as [|s l IH]; [reflexivity | exact IH]. Qed.

Lemma Set_delete_incl (s : AudioBufferSourceNode)
    (l : list AudioBufferSourceNode) :
  incl (Set_delete s l) l.
Proof. unfold Set_delete. intros x Hx. now apply filter_In in Hx. Qed.

(** One event: its stops are for known sources, and the active set
    stays within the known sources. *)
Lemma dispatch_stops (e : Event) (st : Component)
    (started : list AudioBufferSourceNode) :
  incl (activeSourcesRef st) started ->
  stops_after_starts started (calls_of (dispatch e) st)
  /\ incl (activeSourcesRef (state_after (dispatch e) st))
          (begun_into started (calls_of (dispatch e) st)).
Proof.
  intros Hknown.
  destruct e as [t msg|source]; cbn [dispatch].
  - unfold state_after, calls_of. rewrite onmessage_eq.
    assert (Hpart : forall st' calls1 known,
              incl (activeSourcesRef st') known ->
              stops_after_starts started calls1 ->
              begun_into started calls1 = known ->
              match interruptedPart msg st' with
              | (r, st2, calls2) =>
                  stops_after_starts started (calls1 ++ calls2)
                  /\ incl (activeSourcesRef st2)
                          (begun_into started (calls1 ++ calls2))
              end).
    { intros st' calls1 known Hin Hs Hb. unfold interruptedPart.
      destruct (interrupted msg).
      - split.
        + apply stops_after_starts_app. split; [exact Hs|].
          rewrite Hb. now apply stops_of_known.
        + cbn. intros x [].
      - rewrite app_nil_r. split; [exact Hs|]. now rewrite Hb. }
    assert (Hplain : match interruptedPart msg (transcribe msg st) with
                     | (r, st2, calls2) =>
                         stops_after_starts started calls2
                         /\ incl (activeSourcesRef st2)
                                 (begun_into started calls2)
                     end).
    { apply (Hpart (transcribe msg st) [] started Hknown I eq_refl). }
    destruct (inlineData msg) as [payload|].
    + destruct (truthy payload).
      * destruct (audioContextsRef st) as [ctxs|].
        -- rewrite scheduleChunk_eq.
           destruct (decodeBase64 payload) as [bytes|];
             [destruct (decodeAudioData bytes 24000 1) as [b|]|].
           ++ pose proof (Hpart (schedule t b (transcribe msg st))
                            [Source_start
                               {| node := created (transcribe msg st);
                                  buffer := b |}
                               (Math_max
                                  (nextStartTimeRef (transcribe msg st)) t)]
                            ({| node := created (transcribe msg st);
                                buffer := b |} :: started)) as H.
              destruct (interruptedPart msg
                          (schedule t b (transcribe msg st)))
                as [[r st2] calls2].
              cbn [fst snd]. apply H; [|exact I|reflexivity].
              cbn [schedule activeSourcesRef].
              eapply incl_tran; [apply Set_add_incl|].
              intros x [<-|Hx]; [now left | right; now apply Hknown].
           ++ cbn [fst snd]. split; [exact I|exact Hknown].
           ++ cbn [fst snd]. split; [exact I|exact Hknown].
        -- cbn [fst snd]. split; [exact I|exact Hknown].
      * destruct (interruptedPart msg (transcribe msg st))
          as [[r st2] calls2]. exact Hplain.
    + destruct (interruptedPart msg (transcribe msg st))
        as [[r st2] calls2]. exact Hplain.
  - cbn. split; [exact I|].
    eapply incl_tran; [apply Set_delete_incl|exact Hknown].
Qed.

Lemma run_stops (evs : list Event) :
  forall st started,
    incl (activeSourcesRef st) started ->
    stops_after_starts started (snd (run evs st)).
Proof.
  induction evs as [|e rest IH]; intros st started Hknown; [exact I|].
  rewrite run_cons. apply stops_after_starts_app.
  destruct (dispatch_stops e st Hknown) as [Hs Hin].
  split; [exact Hs|]. now apply IH.
Qed.

(** X16 -- a source is only ever stopped after it was started: in any
    run, every stop is for a source that was active when the run began
    or that the run itself started earlier. *)
Theorem stops_only_started (evs : list Event) (st : Component) :
  stops_after_starts (activeSourcesRef st) (snd (run evs st)).
Proof. apply run_stops, incl_refl. Qed.

End StopsAfterStarts.

(* ================================================================== *)
(** ** More on starting and stopping                                   *)
(* ================================================================== *)

Section StartStop.

(** [stopLiveTriage] of a render, in one equation. *)
Lemma stopLiveTriage_in_eq (i : TriageInput) (log : list LiveTranscription)
    (st : Component) :
  stopLiveTriage_in i log st
  = (Returned tt, stopped i log st, releases st ++ auto_triage_of i log).
Proof.
  destruct st as [inp live log0 ctxs stream session cursor active n].
  unfold releases, auto_triage_of, stopped.
  cbn [streamRef audioContextsRef sessionRef liveTranscription input
       nextStartTimeRef activeSourcesRef created].
  unfold stopLiveTriage_in, handleTriage, user_message, with_message.
  destruct stream as [[tracks]|], ctxs as [[ci co]|], session as [h|];
    unfold deref; unfold bind, gets, modify, ret, throw;
    cbn [isSome streamRef audioContextsRef sessionRef getTracks
         ctx_input ctx_output set_streamRef set_audioContextsRef
         set_sessionRef setIsLiveMode liveTranscription input];
    rewrite ?forEach_call; unfold call;
    cbn [isSome streamRef audioContextsRef sessionRef getTracks
         ctx_input ctx_output set_streamRef set_audioContextsRef
         set_sessionRef setIsLiveMode liveTranscription input];
    (destruct log as [|entry log];
     [ cbn; rewrite ?app_nil_r; reflexivity
     | cbn [List.length Nat.ltb Nat.leb];
       destruct (truthy (trim (join (lit " ")
                   (map text (filter isUser (entry :: log)))))) eqn:E;
       cbn [setInput input customer_message negb fst snd app];
       rewrite ?E; cbn [negb fst snd app];
       rewrite ?app_nil_r, <- ?app_assoc; reflexivity ]).
Qed.

Lemma stopLiveTriage_full (st : Component) :
  stopLiveTriage st
  = (Returned tt, stopped (input st) (liveTranscription st) st,
     releases st ++ auto_triage_of (input st) (liveTranscription st)).
Proof.
  destruct st as [inp live log ctxs stream session cursor active n].
  unfold releases, auto_triage_of, stopped.
  cbn [streamRef audioContextsRef sessionRef liveTranscription input
       nextStartTimeRef activeSourcesRef created].
  unfold stopLiveTriage, handleTriage, user_message, with_message.
  destruct stream as [[tracks]|], ctxs as [[ci co]|], session as [h|];
    unfold deref; unfold bind, gets, modify, ret, throw;
    cbn [isSome streamRef audioContextsRef sessionRef getTracks
         ctx_input ctx_output set_streamRef set_audioContextsRef
         set_sessionRef setIsLiveMode liveTranscription input];
    rewrite ?forEach_call; unfold call;
    cbn [isSome streamRef audioContextsRef sessionRef getTracks
         ctx_input ctx_output set_streamRef set_audioContextsRef
         set_sessionRef setIsLiveMode liveTranscription input];
    (destruct log as [|entry log];
     [ cbn; rewrite ?app_nil_r; reflexivity
     | cbn [List.length Nat.ltb Nat.leb];
       destruct (truthy (trim (join (lit " ")
                   (map text (filter isUser (entry :: log)))))) eqn:E;
       cbn [setInput input customer_message negb fst snd app];
       rewrite ?E; cbn [negb fst snd app];
       rewrite ?app_nil_r, <- ?app_assoc; reflexivity ]).
Qed.

(** The latest render closes over the current state. *)
Lemma stopLiveTriage_latest (st : Component) :
  stopLiveTriage st
  = stopLiveTriage_in (input st) (liveTranscription st) st.
Proof. now rewrite stopLiveTriage_full, stopLiveTriage_in_eq. Qed.

Lemma releases_not_playback (st : Component) :
  forallb (fun c => negb (is_playback c)) (releases st) = true.
Proof.
  unfold releases. rewrite !forallb_app.
  destruct (streamRef st) as [[tracks]|], (audioContextsRef st),
    (sessionRef st); cbn [getTracks forallb negb is_playback andb];
    rewrite ?andb_true_r; try reflexivity;
    apply forallb_forall; intros c Hc; apply in_map_iff in Hc;
    destruct Hc as [t [<- _]]; reflexivity.
Qed.

Lemma auto_triage_not_blank (i : TriageInput) (log : list LiveTranscription) :
  Forall request_not_blank (auto_triage_of i log).
Proof.
  unfold auto_triage_of.
  destruct (truthy (trim (user_message log))) eqn:E; [|constructor].
  constructor; [|constructor].
  cbn [request_not_blank with_message customer_message].
  destruct (trim (user_message log)); [discriminate E|discriminate].
Qed.

Lemma releases_request_free (st : Component) :
  Forall request_not_blank (releases st).
Proof.
  unfold releases. repeat (apply Forall_app; split).
  - destruct (streamRef st); [|constructor].
    apply Forall_map. apply Forall_forall. intros t _. exact I.
  - destruct (audioContextsRef st); repeat constructor.
  - destruct (sessionRef st); repeat constructor.
Qed.

(** X17 -- no triage request ever leaves with a blank customer message:
    [handleTriage] sends the override, or else the current input, only
    when its message holds something besides white space, and
    [stopLiveTriage] only sends such requests too. *)
Theorem requests_never_blank (override : option TriageInput)
    (st : Component) :
  Forall request_not_blank (calls_of (handleTriage override) st)
  /\ Forall request_not_blank (calls_of stopLiveTriage st)
  /\ (trim (customer_message
              (match override with Some o => o | None => input st end)) = []
      -> calls_of (handleTriage override) st = []
         /\ state_after (handleTriage override) st = st)
  /\ (trim (customer_message
              (match override with Some o => o | None => input st end)) <> []
      -> calls_of (handleTriage override) st
         = [TriageMessage
              (match override with Some o => o | None => input st end)]).
Proof.
  unfold calls_of, state_after.
  rewrite stopLiveTriage_full. cbn [snd].
  unfold handleTriage, bind, gets, ret, call.
  set (final := match override with Some o => o | None => input st end).
  destruct (trim (customer_message final)) as [|c u] eqn:E;
    cbn [truthy negb fst snd app].
  - repeat split; try constructor.
    + apply Forall_app. split;
        [apply releases_request_free | apply auto_triage_not_blank].
    + intros H. now contradiction H.
  - repeat split; try discriminate.
    + constructor; [|constructor]. cbn. rewrite E. discriminate.
    + apply Forall_app. split;
        [apply releases_request_free | apply auto_triage_not_blank].
Qed.

Lemma requests_never_blank_witness :
  calls_of (handleTriage None)
    (live_component [])
  = [TriageMessage csv_crash]
  /\ calls_of
       (handleTriage
          (Some {| customer_message := lit "  "; account_tier := Free;
                   recent_activity_summary := []; use_search := None |}))
       (live_component [])
     = [].
Proof.
  split.
  - destruct (requests_never_blank None (live_component []))
      as [_ [_ [_ H]]].
    apply H. discriminate.
  - destruct (requests_never_blank
                (Some {| customer_message := lit "  "; account_tier := Free;
                         recent_activity_summary := []; use_search := None |})
                (live_component [])) as [_ [_ [H _]]].
    apply H. reflexivity.
Defined.

(** X18 -- [stopLiveTriage] tears the session down and leaves playback
    and transcript alone: no source is started or stopped, the cursor,
    the active set and the transcript are what they were, and the live
    flag is off. *)
Theorem stopLiveTriage_leaves_playback (st : Component) :
  forallb (fun c => negb (is_playback c)) (calls_of stopLiveTriage st) = true
  /\ nextStartTimeRef (state_after stopLiveTriage st) = nextStartTimeRef st
  /\ activeSourcesRef (state_after stopLiveTriage st) = activeSourcesRef st
  /\ liveTranscription (state_after stopLiveTriage st) = liveTranscription st
  /\ isLiveMode (state_after stopLiveTriage st) = false.
Proof.
  unfold calls_of, state_after. rewrite stopLiveTriage_full. cbn [fst snd].
  repeat split.
  rewrite forallb_app, releases_not_playback. unfold auto_triage_of.
  now destruct (truthy _).
Qed.

(** X19 -- stopping does not use the transcript up: when the user's
    words made a first stop send a triage request, a second stop sends
    the very same request again. *)
Theorem stopLiveTriage_triages_again (st : Component) :
  truthy (trim (user_message (liveTranscription st))) = true ->
  triage_requests (calls_of stopLiveTriage st)
  = [with_message (input st) (user_message (liveTranscription st))]
  /\ triage_requests
       (calls_of stopLiveTriage (state_after stopLiveTriage st))
     = [with_message (input st) (user_message (liveTranscription st))].
Proof.
  intros Hwords. unfold calls_of, state_after.
  rewrite stopLiveTriage_full. cbn [fst snd].
  rewrite stopLiveTriage_full. cbn [snd].
  rewrite !triage_requests_releases.
  cbn [stopped liveTranscription input].
  unfold auto_triage_of. rewrite Hwords. split; reflexivity.
Qed.

Lemma stopLiveTriage_triages_again_witness :
  map (@customer_message)
    (triage_requests
       (calls_of stopLiveTriage
          (state_after stopLiveTriage (live_component login_log))))
  = [lit "I can't log in It just times out"].
Proof.
  destruct (@stopLiveTriage_triages_again (live_component login_log) eq_refl)
    as [_ H].
  rewrite H. reflexivity.
Defined.

End StartStop.

Section Starting.

Lemma startLiveTriage_eq (microphone : exn + MediaStream)
    (inputCtx outputCtx : AudioContext) (connection : exn + Session)
    (st : Component) :
  let entered := setLiveTranscription (fun _ => []) (setIsLiveMode true st) in
  startLiveTriage microphone inputCtx outputCtx connection st
  = match microphone, connection with
    | inr stream, inr session =>
        (Returned tt,
         set_sessionRef (Some session)
           (held_at_failure microphone inputCtx outputCtx entered),
         [])
    | _, _ =>
        (Returned tt,
         stopped (input st) (liveTranscription st)
           (held_at_failure microphone inputCtx outputCtx entered),
         releases (held_at_failure microphone inputCtx outputCtx entered)
         ++ auto_triage_of (input st) (liveTranscription st))
    end.
Proof.
  cbv zeta. unfold startLiveTriage.
  unfold bind at 1. unfold gets at 1.
  unfold bind at 1. unfold gets at 1.
  unfold bind at 1. unfold modify at 1.
  unfold bind at 1. unfold modify at 1.
  cbn [app].
  destruct microphone as [e|stream].
  - rewrite stopLiveTriage_in_eq. reflexivity.
  - unfold bind at 1. unfold modify at 1.
    unfold bind at 1. unfold modify at 1. cbn [app].
    destruct connection as [e|session].
    + rewrite stopLiveTriage_in_eq. reflexivity.
    + reflexivity.
Qed.

Lemma releases_refs (st st' : Component) :
  streamRef st' = streamRef st ->
  audioContextsRef st' = audioContextsRef st ->
  sessionRef st' = sessionRef st ->
  releases st' = releases st.
Proof. unfold releases. now intros -> -> ->. Qed.

(** X20 -- a start that fails leaves nothing held: whether the
    microphone is refused or the connection fails, [startLiveTriage]
    returns, releases everything the refs hold at that point (tracks and
    contexts just acquired included), leaves the three refs empty and the
    live flag off.  The transcript is cleared, but the user words of the
    transcript the starting render saw are triaged once more. *)
Theorem startLiveTriage_failure (microphone : exn + MediaStream)
    (inputCtx outputCtx : AudioContext) (connection : exn + Session)
    (st : Component) :
  (exists e, microphone = inl e) \/ (exists e, connection = inl e) ->
  let start := startLiveTriage microphone inputCtx outputCtx connection in
  outcome_of start st = Returned tt
  /\ filter is_release (calls_of start st)
     = releases (held_at_failure microphone inputCtx outputCtx st)
  /\ streamRef (state_after start st) = None
  /\ audioContextsRef (state_after start st) = None
  /\ sessionRef (state_after start st) = None
  /\ isLiveMode (state_after start st) = false
  /\ liveTranscription (state_after start st) = []
  /\ triage_requests (calls_of start st)
     = triage_requests (auto_triage_of (input st) (liveTranscription st)).
Proof.
  intros Hfail. cbv zeta. unfold outcome_of, state_after, calls_of.
  pose proof (startLiveTriage_eq microphone inputCtx outputCtx connection st)
    as Heq.
  cbv zeta in Heq. rewrite Heq.
  set (held := held_at_failure microphone inputCtx outputCtx
                 (setLiveTranscription (fun _ => []) (setIsLiveMode true st))).
  assert (Hrel : releases held
                 = releases (held_at_failure microphone inputCtx outputCtx st)).
  { subst held. unfold held_at_failure.
    destruct microphone; apply releases_refs; reflexivity. }
  assert (Hlog : liveTranscription held = []).
  { subst held. unfold held_at_failure. now destruct microphone. }
  assert (Hfilter : filter is_release
                      (releases held
                       ++ auto_triage_of (input st) (liveTranscription st))
                    = releases held).
  { rewrite filter_app.
    assert (Hr : filter is_release (releases held) = releases held).
    { apply filter_all. unfold releases.
      repeat (apply Forall_app; split).
      - destruct (streamRef held) as [stream|]; [|constructor].
        apply Forall_map. apply Forall_forall. reflexivity.
      - destruct (audioContextsRef held); repeat constructor.
      - destruct (sessionRef held); repeat constructor. }
    rewrite Hr. unfold auto_triage_of.
    destruct (truthy _); cbn; now rewrite app_nil_r. }
  destruct microphone as [e|stream];
    [|destruct connection as [e|session]];
    cbn [fst snd stopped streamRef audioContextsRef sessionRef isLiveMode
         liveTranscription];
    try (rewrite Hfilter, Hrel, Hlog, triage_requests_releases;
         repeat split; reflexivity).
  destruct Hfail as [[e He]|[e He]]; discriminate.
Qed.

Lemma startLiveTriage_failure_witness :
  filter is_release
    (calls_of (startLiveTriage (inr {| getTracks := [4%nat; 5%nat] |})
                               8%nat 9%nat (inl (Error (lit "refused"))))
              (stopped csv_crash [] (live_component [])))
  = [Track_stop 4%nat; Track_stop 5%nat;
     AudioContext_close 8%nat; AudioContext_close 9%nat].
Proof.
  assert (Hfail : (exists e, @inr exn MediaStream
                               {| getTracks := [4%nat; 5%nat] |} = inl e)
                  \/ (exists e, @inl exn Session (Error (lit "refused"))
                                = inl e)).
  { right. eexists. reflexivity. }
  destruct (@startLiveTriage_failure
              (inr {| getTracks := [4%nat; 5%nat] |}) 8%nat 9%nat
              (inl (Error (lit "refused")))
              (stopped csv_crash [] (live_component [])) Hfail)
    as [_ [H _]].
  rewrite H. reflexivity.
Defined.

(** A render that still shows the words of an earlier session sends them
    again when its start fails. *)
Example failed_start_triages_old_words :
  triage_requests
    (calls_of (startLiveTriage (inl (Error (lit "denied"))) 8%nat 9%nat
                               (inl (Error (lit "unused"))))
              (stopped csv_crash login_log (live_component login_log)))
  = [with_message csv_crash (lit "I can't log in It just times out")].
Proof. reflexivity. Qed.



End Starting.

(* ================================================================== *)
(** ** What [handleTriage] shows                                       *)
(* ================================================================== *)

Section History.

Variable JSON : Type.
Variable platform : exn -> jsstring.

Lemma submit_history (d : Display JSON) (s : Submission JSON) :
  history (submit platform d s)
  = (if answered s
     then match result (submit platform d s) with
          | Some it => [it]
          | None => []
          end
     else [])
    ++ history d
  /\ (answered s = true ->
      exists it, result (submit platform d s) = Some it
                 /\ item_input it = sub_final s
                 /\ item_id it = sub_id s
                 /\ timestamp it = sub_time s)
  /\ (answered s = false -> result (submit platform d s) = result d)
  /\ (error_readable d -> error_readable (submit platform d s)).
Proof.
  unfold submit, handleTriage_settled, answered, sub_final, error_readable.
  destruct (truthy (trim (customer_message
              match sub_override s with
              | Some o => o
              | None => sub_current s
              end))); cbn [negb andb].
  - destruct (sub_settled s) as [e|r]; cbn [history result error].
    + repeat split; try discriminate.
      intros _. apply or_else_truthy. discriminate.
    + repeat split; try discriminate.
      intros _. eexists. split; [reflexivity|]. repeat split.
  - repeat split; try discriminate. auto.
Qed.

(** X22 -- the history is newest first and holds answered submissions
    only: after any sequence of submissions, in the order they settle,
    it is one new item per submission that was sent and answered, the
    latest first, each with the input it answers, in front of the
    unchanged earlier history; and an error on display is never
    blank. *)
Theorem history_newest_first (subs : list (Submission JSON))
    (d : Display JSON) :
  exists newer,
    history (fold_left (submit platform) subs d) = newer ++ history d
    /\ map (@item_input JSON) newer
       = rev (map (@sub_final JSON) (filter (@answered JSON) subs))
    /\ map (@item_id JSON) newer
       = rev (map (@sub_id JSON) (filter (@answered JSON) subs))
    /\ (error_readable d ->
        error_readable (fold_left (submit platform) subs d)).
Proof.
  revert d. induction subs as [|s subs IH]; intros d.
  - exists []. cbn. repeat split; auto.
  - cbn [fold_left filter].
    destruct (IH (submit platform d s)) as [newer [Hh [Hi [Hid He]]]].
    destruct (submit_history d s) as [Hs [Hans [_ Herr]]].
    destruct (answered s) eqn:Ea.
    + destruct (Hans eq_refl) as [it [Hr [Hin [Hiid _]]]].
      rewrite Hr in Hs. exists (newer ++ [it]).
      rewrite Hh, Hs, <- app_assoc. split; [reflexivity|].
      cbn [map rev]. rewrite !map_app, Hi, Hid. cbn [map].
      rewrite Hin, Hiid. repeat split; auto.
    + exists newer. rewrite Hh, Hs. cbn [app].
      repeat split; auto.
Qed.

End History.

Section MoreWitnesses.

Lemma onmessage_without_context_witness :
  calls_of
    (onmessage 3 {| inputTranscription := Some (lit "hello");
                    outputTranscription := None;
                    inlineData := Some (lit "AAAAAAAA");
                    interrupted := true |})
    (stopped csv_crash [] playing_component)
  = []
  /\ List.length
       (activeSourcesRef
          (state_after
             (onmessage 3 {| inputTranscription := Some (lit "hello");
                             outputTranscription := None;
                             inlineData := Some (lit "AAAAAAAA");
                             interrupted := true |})
             (stopped csv_crash [] playing_component)))
     = 1%nat.
Proof.
  destruct (@onmessage_without_context 3
              {| inputTranscription := Some (lit "hello");
                 outputTranscription := None;
                 inlineData := Some (lit "AAAAAAAA");
                 interrupted := true |}
              (stopped csv_crash [] playing_component) (lit "AAAAAAAA")
              eq_refl eq_refl eq_refl) as [_ [Hc [Ha _]]].
  split; [exact Hc|]. rewrite Ha. reflexivity.
Defined.

Lemma history_newest_first_witness :
  map (@item_id unit)
    (history
       (fold_left (submit (fun _ => []))
          [ {| sub_override := None; sub_current := csv_crash;
               sub_settled := inr {| parsed := tt; grounding_sources := [] |};
               sub_id := lit "a1"; sub_time := 10%N |};
            {| sub_override := None; sub_current := csv_crash;
               sub_settled := inl SyntaxError;
               sub_id := lit "b2"; sub_time := 20%N |};
            {| sub_override := None; sub_current := csv_crash;
               sub_settled := inr {| parsed := tt; grounding_sources := [] |};
               sub_id := lit "c3"; sub_time := 30%N |} ]
          {| loading := false; error := None; result := None;
             history := [] |}))
  = [lit "c3"; lit "a1"].
Proof.
  destruct (@history_newest_first unit (fun _ => [])
              [ {| sub_override := None; sub_current := csv_crash;
                   sub_settled :=
                     inr {| parsed := tt; grounding_sources := [] |};
                   sub_id := lit "a1"; sub_time := 10%N |};
                {| sub_override := None; sub_current := csv_crash;
                   sub_settled := inl SyntaxError;
                   sub_id := lit "b2"; sub_time := 20%N |};
                {| sub_override := None; sub_current := csv_crash;
                   sub_settled :=
                     inr {| parsed := tt; grounding_sources := [] |};
                   sub_id := lit "c3"; sub_time := 30%N |} ]
              {| loading := false; error := None; result := None;
                 history := [] |}) as [newer [Hh [_ [Hid _]]]].
  rewrite Hh, app_nil_r, Hid. reflexivity.
Defined.

End MoreWitnesses.

(* ================================================================== *)
(** ** The stored samples, the interruption and the request, on the
       functions themselves                                            *)
(* ================================================================== *)

Section StoredSamples.

Lemma truncate_scaled_beyond (q : Q) :
  1 <= q -> q < 3 ->
  (32768 <= truncate (q * 32768) <= 98303)%Z.
Proof.
  destruct q as [n d]. unfold Qle, Qlt, truncate. cbn.
  intros Hlo Hhi.
  rewrite Pos.mul_1_r.
  destruct (@quot_spec (n * 32768) (Z.pos d) ltac:(lia))
    as [r [D [Hr [Hpos _]]]].
  set (t := (n * 32768 ÷ Z.pos d)%Z) in *.
  specialize (Hpos ltac:(lia)). nia.
Qed.

Lemma stored_as_ToInt16 (x : number) :
  stored_as x (ToInt16 (times_32768 x)).
Proof.
  split; [apply ToInt16_range|].
  destruct x as [q| | |]; cbn [times_32768]; try reflexivity.
  split; [apply ToInt16_wraps|]. split; [|split].
  - intros Hlo Hhi. apply ToInt16_in_range.
    now apply truncate_scaled_range.
  - intros Hlo Hhi. pose proof (truncate_scaled_beyond Hlo Hhi) as Ht.
    cbn [ToInt16].
    destruct (32768 <=? truncate (q * 32768) mod 65536)%Z eqn:E;
      [apply Z.leb_le in E | apply Z.leb_gt in E]; divmod.
  - intros Hq. cbn [ToInt16].
    assert (Ht : truncate (q * 32768) = 32768%Z).
    { destruct q as [n d]. unfold Qeq in Hq. cbn in Hq.
      unfold truncate. cbn. rewrite Pos.mul_1_r.
      replace n with (Z.pos d) by lia.
      rewrite Z.mul_comm. apply Z.quot_mul. lia. }
    rewrite Ht. reflexivity.
Qed.

(** C10 -- [createPcmBlob] never fails, and the sixteen-bit elements its
    text carries are, sample by sample, [x * 32768] coerced with
    wrap-around and not with saturation: every element is congruent to
    the truncated product modulo 2^16 and lies in the sixteen-bit range;
    it is the product truncated toward zero for a sample of [-1, 1), the
    truncated product less 2^16 for a sample of [1, 3), and so -32768 for
    the sample 1.0. *)
Theorem createPcmBlob_stores_wrapped (samples : list number) :
  exists blob bytes stored,
    createPcmBlob samples = Some blob
    /\ decodeBase64 (data blob) = Some bytes
    /\ Int16Array_of_bytes bytes = Some stored
    /\ Forall2 stored_as samples stored.
Proof.
  unfold createPcmBlob. rewrite encodeBase64_total. cbn [option_map].
  eexists. eexists. eexists. split; [reflexivity|]. cbn [data].
  split; [apply decodeBase64_base64_encode|].
  split.
  - apply Int16Array_of_Uint8Array. apply Forall_map.
    apply Forall_forall. intros x _. apply ToInt16_range.
  - induction samples as [|x samples IH]; cbn [map]; constructor;
      [apply stored_as_ToInt16 | exact IH].
Qed.

Lemma createPcmBlob_stores_wrapped_witness :
  exists blob bytes stored,
    createPcmBlob [Finite 1; Finite (1 # 2); Finite (3 # 2); NaN] = Some blob
    /\ decodeBase64 (data blob) = Some bytes
    /\ Int16Array_of_bytes bytes = Some stored
    /\ List.length stored = 4%nat
    /\ nth 0 stored 0%Z = (-32768)%Z
    /\ nth 2 stored 0%Z = (truncate ((3 # 2) * 32768) - 65536)%Z.
Proof.
  destruct (createPcmBlob_stores_wrapped
              [Finite 1; Finite (1 # 2); Finite (3 # 2); NaN])
    as [blob [bytes [stored [Hb [Hd [Hv Hs]]]]]].
  exists blob, bytes, stored.
  split; [exact Hb|]. split; [exact Hd|]. split; [exact Hv|].
  inversion Hs as [|x0 v0 l0 s0 H0 Hs1]; subst.
  inversion Hs1 as [|x1 v1 l1 s1 H1 Hs2]; subst.
  inversion Hs2 as [|x2 v2 l2 s2 H2 Hs3]; subst.
  inversion Hs3 as [|x3 v3 l3 s3 H3 Hs4]; subst.
  inversion Hs4; subst.
  split; [reflexivity|]. cbn [nth]. split.
  - destruct H0 as [_ [_ [_ [_ Hfull]]]]. apply Hfull. reflexivity.
  - destruct H2 as [_ [_ [_ [Hbeyond _]]]].
    apply Hbeyond; unfold Qle, Qlt; cbn; lia.
Defined.

End StoredSamples.

Section Interruption.




End Interruption.

Section RequestSent.

Variable JSON : Type.
Variable JSON_parse : jsstring -> option JSON.
Variable JSON_stringify : TriageInput -> jsstring.
Variable SYSTEM_INSTRUCTION : jsstring.
Variable generateContent : GenerateContentRequest -> GenerateContentResponse.

(** C7 -- whatever the backend, the result of [triageMessage] is what
    it makes of the backend's answer to one request, whose text is
    "Input: " followed by the serialized processed input; in the
    processed input every field but [recent_activity_summary] is the
    caller's, and an empty [recent_activity_summary] has become "no
    recent changes". *)
Theorem triageMessage_sends_normalized (input : TriageInput) :
  exists sent processed,
    triageMessage JSON_parse JSON_stringify SYSTEM_INSTRUCTION
                  generateContent input
    = handleResponse JSON_parse input (generateContent sent)
    /\ contents sent = lit "Input: " ++ JSON_stringify processed
    /\ systemInstruction sent = SYSTEM_INSTRUCTION
    /\ customer_message processed = customer_message input
    /\ account_tier processed = account_tier input
    /\ use_search processed = use_search input
    /\ (recent_activity_summary input = [] ->
        recent_activity_summary processed = lit "no recent changes").
Proof.
  exists (buildRequest JSON_stringify SYSTEM_INSTRUCTION input),
         (processedInput input).
  repeat split. intros E. cbn. now rewrite E.
Qed.

End RequestSent.

(** The request as an echoing backend shows it: the scenario input is
    sent with its summary replaced. *)
Lemma triageMessage_sends_normalized_witness :
  triageMessage (fun s => Some s) (@recent_activity_summary) []
                echo_backend csv_crash
  = inr {| parsed := lit "Input: no recent changes";
           grounding_sources := [] |}.
Proof.
  destruct (@triageMessage_sends_normalized jsstring (fun s => Some s)
              (@recent_activity_summary) [] echo_backend csv_crash)
    as [sent [processed [Hlink [Hc [_ [_ [_ [_ Hs]]]]]]]].
  rewrite Hlink. unfold echo_backend, handleResponse.
  cbn [response_text groundingChunks]. rewrite Hc, (Hs eq_refl).
  reflexivity.
Defined.

Section DecodeInContext.

Variable createBuffer_accepts : nat -> nat -> Q -> bool.

(** An array on a buffer of its own has the bytes of its buffer. *)
Lemma array_bytes_from (bytes : list byte) :
  array_bytes (Uint8Array_from bytes) = bytes
  /\ array_buffer (Uint8Array_from bytes) = bytes.
Proof.
  unfold array_bytes, Uint8Array_from. cbn. split; [|reflexivity].
  apply firstn_all.
Qed.

(** X1 -- [decodeAudioData] reads the whole buffer under its array:
    it throws the RangeError of the sixteen-bit view exactly when that
    buffer has an odd number of bytes, before the context is asked; it
    throws at [createBuffer] exactly when the buffer is even and the
    context refuses the allocation; otherwise the audio buffer has the
    requested channels, each with as many samples as whole frames fit in
    the bytes of the underlying buffer, all of them finite values of
    [-1, 1). *)
Theorem decodeAudioData_in_shape (data : Uint8Array) (rate : Q)
    (n : positive) :
  let total := List.length (array_buffer data) in
  match decodeAudioData_in createBuffer_accepts data rate n with
  | inl ViewRangeError => Nat.even total = false
  | inl BufferNotSupported =>
      Nat.even total = true
      /\ createBuffer_accepts (Pos.to_nat n) (total / 2 / Pos.to_nat n)%nat
                              rate = false
  | inr buf =>
      Nat.even total = true
      /\ createBuffer_accepts (Pos.to_nat n) (total / 2 / Pos.to_nat n)%nat
                              rate = true
      /\ numberOfChannels buf = Pos.to_nat n
      /\ frames buf = (total / 2 / Pos.to_nat n)%nat
      /\ sampleRate buf = rate
      /\ List.length (channels buf) = Pos.to_nat n
      /\ Forall (fun ch => List.length ch = frames buf
                           /\ Forall below_full_scale ch)
                (channels buf)
  end.
Proof.
  cbv zeta. unfold decodeAudioData_in, decodeAudioData.
  pose proof (Int16Array_of_bytes_spec (array_buffer data)) as Hv.
  destruct (Int16Array_of_bytes (array_buffer data)) as [a|]; [|exact Hv].
  destruct Hv as [He [Hl [Hr _]]].
  cbn [numberOfChannels frames sampleRate channels].
  assert (Hhalf : (List.length (array_buffer data) / 2
                   = List.length a)%nat).
  { rewrite Hl, Nat.mul_comm. apply Nat.div_mul. lia. }
  rewrite Hhalf.
  destruct (createBuffer_accepts (Pos.to_nat n)
              (List.length a / Pos.to_nat n)%nat rate) eqn:E.
  - cbn [numberOfChannels frames sampleRate channels].
    repeat split; try assumption.
    + now rewrite length_map, length_seq.
    + apply Forall_map. apply Forall_forall. intros channel _. split.
      * now rewrite length_map, length_seq.
      * apply Forall_map. apply Forall_forall. intros i _.
        apply int16_sample_below_full_scale.
        destruct (Nat.lt_ge_cases (i * Pos.to_nat n + channel)
                                  (List.length a)) as [Hin|Hout].
        -- rewrite Forall_forall in Hr. apply Hr. now apply nth_In.
        -- rewrite nth_overflow by assumption. unfold int16_range. lia.
  - split; [exact He|reflexivity].
Qed.

(** X2 -- from the wire and back, on the array [decodeBase64] returns:
    when a text decodes to an even number of bytes and the context
    accepts the allocation, the single channel [decodeAudioData] reads
    from them is encoded by [createPcmBlob] to a text that
    [decodeBase64] turns into exactly those bytes. *)
Theorem wire_round_trip_in (payload : jsstring) (bytes : list byte)
    (rate : Q) :
  decodeBase64 payload = Some bytes ->
  Nat.even (List.length bytes) = true ->
  createBuffer_accepts 1%nat (List.length bytes / 2)%nat rate = true ->
  exists buf ch blob,
    decodeAudioData_in createBuffer_accepts (Uint8Array_from bytes) rate 1
    = inr buf
    /\ channels buf = [ch]
    /\ createPcmBlob ch = Some blob
    /\ decodeBase64 (data blob) = Some bytes.
Proof.
  intros _ He Hacc.
  pose proof (Int16Array_of_bytes_spec bytes) as Hv.
  destruct (Int16Array_of_bytes bytes) as [a|] eqn:Ea; [|congruence].
  destruct Hv as [_ [Hl [Hr Hb]]].
  assert (Hhalf : (List.length bytes / 2 = List.length a)%nat).
  { rewrite Hl, Nat.mul_comm. apply Nat.div_mul. lia. }
  eexists. eexists. eexists.
  unfold decodeAudioData_in.
  change (array_buffer (Uint8Array_from bytes)) with bytes.
  rewrite (decodeAudioData_mono _ rate Ea).
  cbn [numberOfChannels frames channels].
  rewrite <- Hhalf, Hacc.
  split; [reflexivity|]. cbn [channels]. split; [reflexivity|].
  unfold createPcmBlob. rewrite encodeBase64_total. cbn [option_map data].
  split; [reflexivity|]. cbn [data].
  rewrite decodeBase64_base64_encode. f_equal.
  rewrite map_map. rewrite <- Hb. f_equal.
  rewrite <- (map_id a) at 2. apply map_ext_in.
  intros v Hin. apply int16_sample_stored.
  rewrite Forall_forall in Hr. now apply Hr.
Qed.

End DecodeInContext.

Lemma wire_round_trip_in_witness :
  exists buf ch blob,
    decodeAudioData_in nonempty_only
      (Uint8Array_from ["001"; "128"; "255"; "127"]%byte) 24000 1
    = inr buf
    /\ channels buf = [ch]
    /\ createPcmBlob ch = Some blob
    /\ decodeBase64 (data blob) = Some ["001"; "128"; "255"; "127"]%byte.
Proof.
  apply (@wire_round_trip_in nonempty_only (lit "AYD/fw==")
           ["001"; "128"; "255"; "127"]%byte 24000);
    reflexivity.
Defined.

(** A window of two bytes on a buffer of six is decoded as the six: three
    frames, not one. *)
Example view_is_decoded_whole :
  match decodeAudioData_in nonempty_only
          (subarray (Uint8Array_from
                       ["001"; "000"; "002"; "000"; "003"; "000"]%byte) 2 4)
          24000 1
  with
  | inr buf => Some (frames buf)
  | inl _ => None
  end = Some 3%nat
  /\ array_bytes
       (subarray (Uint8Array_from
                    ["001"; "000"; "002"; "000"; "003"; "000"]%byte) 2 4)
     = ["002"; "000"]%byte.
Proof. split; reflexivity. Qed.

(** A context that refuses empty buffers makes the empty payload fail at
    the allocation. *)
Example empty_buffer_refused :
  decodeAudioData_in nonempty_only (Uint8Array_from []) 24000 1
  = inl BufferNotSupported.
Proof. reflexivity. Qed.
